(** * East Idaho News app: content synchronisation and caching layer

    A shallow embedding of the four services the specification is about:

    - [WordPress]   src/services/wordpressService.ts  (content source adapter)
    - [Archive]     src/services/archiveService.ts    (result cache)
    - [Realtime]    realtimeService.ts                (change detector / poller)
    - [StoryImage]  src/components/StoryImage.tsx     (image URL resolution)

    Modelling conventions.

    - JavaScript strings are [string]s of code units below 256; numbers that
      the modelled code only uses as integers (identifiers, pixel widths,
      millisecond timestamps, page sizes) are [Z], and stand for integers
      that a number holds exactly (magnitude at most 2^53); a number read
      from a text by [parseInt], which may be [NaN], rounded or infinite, is
      a [jsnum].
    - An [async] method is modelled as one atomic call that receives the
      outcome of its network request from an oracle and returns the list of
      requests it issued next to its result.  The poller, whose claims are
      about interleavings, is modelled as an event loop with explicit
      in-flight requests and pending timers.  [getStories], whose cache is
      read before and written after the [await], is modelled both ways: as
      the atomic call [Archive.getStories], for calls that follow one
      another, and cut at its [await] in [ArchiveLoop], for calls that
      overlap.
    - [console.log] and friends have no counterpart.

    The second half of the file covers more of the same sources: the text
    helpers [stripHtml] and [formatDate], the query helpers of the archive
    service, the category tabs and the call of the home screen, and the
    load-error handlers of the image component. *)

From stdpp Require Import gmap strings list fin_maps pretty.
From Stdlib Require Import ZArith Lia Ascii.

Local Open Scope Z_scope.

(** ** JavaScript primitives used by the services *)

Module JS.

(** A JavaScript number that the code may obtain from [parseInt]: [NaN],
    an integer, or an infinity. *)
Inductive jsnum : Type :=
| NaN : jsnum
| Num : Z -> jsnum
| Infinity : forall negative : bool, jsnum.

Definition isNaN (n : jsnum) : bool :=
  match n with NaN => true | _ => false end.

(** [a < b]; any comparison with [NaN] is false. *)
Definition lt (a b : jsnum) : bool :=
  match a, b with
  | Num x, Num y => x <? y
  | Num _, Infinity negative => negb negative
  | Infinity negative, Num _ => negative
  | Infinity true, Infinity false => true
  | _, _ => false
  end.

(** Truthiness of a number: neither [0] nor [NaN]. *)
Definition truthy_num (n : jsnum) : bool :=
  match n with NaN => false | Num z => negb (z =? 0) | Infinity _ => true end.

(** Truthiness of a string: non-empty. *)
Definition truthy (s : string) : bool :=
  match s with EmptyString => false | String _ _ => true end.

(** [`${n}`] and [n.toString()] for an integer-valued number: the decimal
    numeral.  This is the text of the number for the integers a number
    holds exactly, those of magnitude at most 2^53; for larger ones the
    source prints the shortest numeral that reads back as the number, which
    the model does not follow. *)
Definition show (z : Z) : string := pretty z.

Definition show_num (n : jsnum) : string :=
  match n with
  | NaN => "NaN"
  | Num z => show z
  | Infinity negative => if negative then "-Infinity" else "Infinity"
  end.

Definition code (c : ascii) : Z := Z.of_nat (nat_of_ascii c).

(** [String.prototype.toLowerCase] on one code unit below 256: the letters
    A-Z, and the accented capitals U+00C0 to U+00DE (the sign U+00D7 is not
    a letter). *)
Definition lower_char (c : ascii) : ascii :=
  let n := code c in
  if ((65 <=? n) && (n <=? 90)) ||
     ((192 <=? n) && (n <=? 222) && negb (n =? 215))
  then ascii_of_nat (nat_of_ascii c + 32)
  else c.

Fixpoint toLowerCase (s : string) : string :=
  match s with
  | EmptyString => EmptyString
  | String c s' => String (lower_char c) (toLowerCase s')
  end.

(** [s.startsWith(kw)] *)
Fixpoint startsWith (s kw : string) {struct kw} : bool :=
  match kw, s with
  | EmptyString, _ => true
  | String _ _, EmptyString => false
  | String k kw', String c s' =>
      if decide (k = c) then startsWith s' kw' else false
  end.

(** [s.includes(kw)] *)
Fixpoint includes (s kw : string) : bool :=
  startsWith s kw ||
  match s with
  | EmptyString => false
  | String _ s' => includes s' kw
  end.

(** White space skipped by [parseInt] (TAB, LF, VT, FF, CR, SP, NBSP). *)
Definition isWhiteSpace (c : ascii) : bool :=
  let n := code c in
  ((9 <=? n) && (n <=? 13)) || (n =? 32) || (n =? 160).

Fixpoint trimStart (s : string) : string :=
  match s with
  | EmptyString => EmptyString
  | String c s' => if isWhiteSpace c then trimStart s' else s
  end.

(** Value of [c] as a digit of the given radix (10 or 16). *)
Definition digit (radix : Z) (c : ascii) : option Z :=
  let n := code c in
  if (48 <=? n) && (n <=? 57) then Some (n - 48)
  else if (radix =? 16) && (97 <=? n) && (n <=? 102) then Some (n - 87)
  else if (radix =? 16) && (65 <=? n) && (n <=? 70) then Some (n - 55)
  else None.

(** The longest prefix of digits, read in the radix; [acc] is [None] as
    long as no digit has been read. *)
Fixpoint digits (radix : Z) (s : string) (acc : option Z) : option Z :=
  match s with
  | EmptyString => acc
  | String c s' =>
      match digit radix c with
      | Some d => digits radix s' (Some (radix * default 0 acc + d))
      | None => acc
      end
  end.

(** The mathematical integer [m >= 0] as a number can hold it: [m] itself
    below 2^53; otherwise [m] rounded to 53 significant bits, to the nearest
    and to the even one of two nearest. *)
Definition round53 (m : Z) : Z :=
  if m <? 9007199254740992 then m
  else
    let e := Z.log2 m - 52 in
    let q := Z.shiftr m e in
    let r := m - Z.shiftl q e in
    let half := Z.shiftl 1 (e - 1) in
    let q' := if (half <? r) || ((r =? half) && Z.odd q) then q + 1 else q in
    Z.shiftl q' e.
Global Arguments round53 : simpl never.

(** The number for the integer [sign * m], with [m >= 0] and [sign] 1 or
    -1: the rounded integer, or an infinity from 2^1024 on. *)
Definition number (sign m : Z) : jsnum :=
  let v := round53 m in
  if 1024 <=? Z.log2 v then Infinity (sign <? 0) else Num (sign * v).

(** [parseInt(s)] with no radix argument: leading white space, an optional
    sign, an optional [0x]/[0X] prefix, then the longest run of digits, read
    as a number; [NaN] when there is no digit.  (Past the 20th significant
    digit the language lets an implementation read zeros; the model, like
    the usual engines, reads the digits.) *)
Definition parseInt (s : string) : jsnum :=
  let s := trimStart s in
  let '(sign, s) :=
    match s with
    | String "-" s' => (-1, s')
    | String "+" s' => (1, s')
    | _ => (1, s)
    end in
  let '(radix, s) :=
    match s with
    | String "0" (String "x" s') => (16, s')
    | String "0" (String "X" s') => (16, s')
    | _ => (10, s)
    end in
  match digits radix s None with
  | None => NaN
  | Some m => number sign m
  end.

(** A [Set] keeps its members in insertion order. *)
Definition Set_has (s : list Z) (x : Z) : bool := bool_decide (x ∈ s).

Definition Set_add (s : list Z) (x : Z) : list Z :=
  if Set_has s x then s else s ++ [x].

(** [new Set(array)] *)
Definition Set_from (l : list Z) : list Z := foldl Set_add [] l.

(** [array.slice(-n)] *)
Definition slice_last {A} (n : nat) (l : list A) : list A :=
  drop (length l - n) l.

(** [[...new Set(urls)]]: first occurrences, in order. *)
Fixpoint unique (seen l : list string) : list string :=
  match l with
  | [] => []
  | x :: l' =>
      if bool_decide (x ∈ seen) then unique seen l'
      else x :: unique (x :: seen) l'
  end.

End JS.

(** ** Outcomes of a network request *)

Module Net.

(** What [await response.json()] gives: a decoded value or a thrown
    decode error.  A body that decodes is taken to have the shape the
    callers declare for it (an array of posts, an array of categories). *)
Inductive Body (A : Type) : Type :=
| BadJson (message : string)
| Json (data : A).
Arguments BadJson {A} message.
Arguments Json {A} data.

(** What [await fetch(...)] gives: a rejected promise (network error) or
    a response with its [ok] flag, status, [X-WP-Total] header and body. *)
Inductive FetchOutcome (A : Type) : Type :=
| Rejected (message : string)
| Responded (ok : bool) (status : Z) (xWpTotal : option string) (body : Body A).
Arguments Rejected {A} message.
Arguments Responded {A} ok status xWpTotal body.

(** A settled promise: the value, or the message of the thrown [Error]. *)
Inductive Result (A : Type) : Type :=
| Err (message : string)
| Ok (value : A).
Arguments Err {A} message.
Arguments Ok {A} value.

End Net.

(** ** src/services/wordpressService.ts *)

Module WordPress.
Import JS Net.

Definition WORDPRESS_API_URL : string := "https://eastidahonews.com/wp-json/wp/v2".

(** [WordPressPost], with the fields the modelled services read:
    [title.rendered] and [content.rendered] are [post_title] and
    [post_content]. *)
Record WordPressPost : Type := {
  post_id : Z;
  post_date : string;
  post_title : string;
  post_content : string
}.

(** The two endpoints the service calls, as functions of the URL. *)
Record Network : Type := {
  posts_at : string -> FetchOutcome (list WordPressPost);
  (** the [id]s of the category records in the response *)
  categories_at : string -> FetchOutcome (list Z)
}.

Definition featuredCategoryIds : list string :=
  ["33629"; "33654"; "33557"; "34697"; "25233"; "33635"; "31250";
   "35316"; "27012"; "33641"; "33627"; "33660"; "32014"].

Definition sportsCategoryIds : list string :=
  ["34638"; "34690"; "14222"; "34596"; "34598"; "34594"; "34601";
   "34609"; "34615"; "34667"; "34666"; "34634"; "34617"; "34607";
   "34608"; "34600"; "34602"; "34603"].

(** [ids.join(',')] *)
Fixpoint join (sep : string) (l : list string) : string :=
  match l with
  | [] => ""
  | [x] => x
  | x :: l' => x +:+ sep +:+ join sep l'
  end.

(** [getCategoryId(slug)]: the requests issued and [number | null]. *)
Definition getCategoryId (net : Network) (slug : string) : list string * option Z :=
  let url := WORDPRESS_API_URL +:+ "/categories?slug=" +:+ slug in
  ([url],
   match categories_at net url with
   | Rejected _ => None
   | Responded ok _ _ body =>
       if negb ok then None
       else match body with
            | BadJson _ => None
            | Json categories =>
                match categories with
                | [] => None
                | c :: _ => Some c
                end
            end
   end).

Section Clock.
(** [new Date(ms).toISOString()] *)
Variable toISOString : Z -> string.
(** [Date.now()] at the time of the call *)
Variable now : Z.

Definition basePosts : list WordPressPost :=
  [ {| post_id := 1; post_date := toISOString now;
       post_title := "East Idaho News App - Real-time Updates";
       post_content := "This is a mock article for web testing with real-time updates." |};
    {| post_id := 2; post_date := toISOString (now - 3600000);
       post_title := "Local Community Updates";
       post_content := "Stay informed about your local community with real-time updates." |};
    {| post_id := 3; post_date := toISOString (now - 7200000);
       post_title := "Breaking News Alert";
       post_content := "Important breaking news for the East Idaho community." |} ].

Definition any_of (title : string) (words : list string) : bool :=
  existsb (includes title) words.

Definition getMockPosts (categorySlug : string) : list WordPressPost :=
  if truthy categorySlug then
    filter (fun post =>
      let title := toLowerCase (post_title post) in
      Is_true (
        if decide (categorySlug = "entertainment-news") then any_of title ["entertainment"; "arts"; "movie"]
        else if decide (categorySlug = "business") then any_of title ["business"; "money"; "economy"]
        else if decide (categorySlug = "local") then any_of title ["local"; "community"; "idaho"]
        else if decide (categorySlug = "sports") then any_of title ["sports"; "game"; "athlete"]
        else if decide (categorySlug = "agriculture") then any_of title ["agriculture"; "farm"; "crop"]
        else if decide (categorySlug = "ask-the-doctor") then any_of title ["doctor"; "health"; "medical"]
        else if decide (categorySlug = "7-questions") then any_of title ["question"; "interview"]
        else if decide (categorySlug = "aliens") then any_of title ["alien"; "ufo"; "extraterrestrial"]
        else if decide (categorySlug = "ammon") then any_of title ["ammon"; "local"]
        else if decide (categorySlug = "blackfoot") then any_of title ["blackfoot"; "local"]
        else if decide (categorySlug = "ashton") then any_of title ["ashton"; "local"]
        else true)) basePosts
  else basePosts.

(** The first half of [getPosts]: the URL of the posts request, and the
    category lookups issued while building it. *)
Definition posts_url (net : Network) (perPage : Z) (categorySlug : string) (page : Z)
  : list string * string :=
  let url := WORDPRESS_API_URL +:+ "/posts?per_page=" +:+ show perPage
               +:+ "&page=" +:+ show page +:+ "&_embed" in
  if truthy categorySlug then
    if decide (categorySlug = "featured-all") then
      ([], url +:+ "&categories=" +:+ join "," featuredCategoryIds)
    else if decide (categorySlug = "sports-all") then
      ([], url +:+ "&categories=" +:+ join "," sportsCategoryIds)
    else
      match parseInt categorySlug with
      | Num categoryId => ([], url +:+ "&categories=" +:+ show categoryId)
      | Infinity negative =>
          ([], url +:+ "&categories=" +:+ show_num (Infinity negative))
      | NaN =>
          let '(log, fetchedCategoryId) := getCategoryId net categorySlug in
          match fetchedCategoryId with
          | Some cid =>
              if negb (cid =? 0) then (log, url +:+ "&categories=" +:+ show cid)
              else (log, url)
          | None => (log, url)
          end
      end
  else ([], url).

(** The [catch] block of [getPosts]. *)
Definition getPosts_catch (categorySlug message : string) : Result (list WordPressPost) :=
  if includes message "CORS" then Ok (getMockPosts categorySlug) else Err message.

(** [getPosts(perPage, categorySlug, page)]: the URLs requested, in
    order, and the settled promise. *)
Definition getPosts (net : Network) (perPage : Z) (categorySlug : string) (page : Z)
  : list string * Result (list WordPressPost) :=
  let '(log, url) := posts_url net perPage categorySlug page in
  (log ++ [url],
   match posts_at net url with
   | Rejected message => getPosts_catch categorySlug message
   | Responded ok status _ body =>
       if negb ok then
         getPosts_catch categorySlug ("HTTP error! status: " +:+ show status)
       else match body with
            | BadJson message => getPosts_catch categorySlug message
            | Json data => Ok data
            end
   end).
End Clock.

End WordPress.

(** ** src/services/archiveService.ts *)

Module Archive.
Import JS Net WordPress.

Record ArchiveOptions : Type := {
  category : option string;
  search : option string;
  dateFrom : option string;
  dateTo : option string;
  author : option string;
  perPage : option Z
}.

(** [getStories()] with no argument: [options = {}]. *)
Definition no_options : ArchiveOptions :=
  {| category := None; search := None; dateFrom := None; dateTo := None;
     author := None; perPage := None |}.

(** The posts request: the entries of its [URLSearchParams], in order
    (the endpoint is always [/wp/v2/posts]). *)
Definition Request : Type := list (string * string).

Record ArchiveService : Type := {
  cachedStories : gmap string (list WordPressPost);
  totalStories : jsnum;
  isLoading : bool
}.

Definition new_ArchiveService : ArchiveService :=
  {| cachedStories := ∅; totalStories := Num 0; isLoading := false |}.

Record Stories : Type := {
  stories : list WordPressPost;
  total : jsnum;
  hasMore : bool
}.

(** The template string of line 51, after the defaults of the
    destructuring have been applied. *)
Definition cacheKey (options : ArchiveOptions) : string :=
  default "" (category options) +:+ "-" +:+
  default "" (search options) +:+ "-" +:+
  default "" (dateFrom options) +:+ "-" +:+
  default "" (dateTo options) +:+ "-" +:+
  default "" (author options) +:+ "-" +:+
  show (default 10 (perPage options)).

Definition append_if (key value : string) (params : Request) : Request :=
  if truthy value then params ++ [(key, value)] else params.

Definition request (options : ArchiveOptions) : Request :=
  append_if "author" (default "" (author options))
    (append_if "before" (default "" (dateTo options))
      (append_if "after" (default "" (dateFrom options))
        (append_if "search" (default "" (search options))
          (append_if "categories" (default "" (category options))
            [("per_page", show (default 10 (perPage options))); ("_embed", "true")])))).

Definition length_num {A} (l : list A) : jsnum := Num (Z.of_nat (length l)).

Definition empty_result : Stories :=
  {| stories := []; total := Num 0; hasMore := false |}.

(** [getStories(options)]: the new state of the service, the resolved
    value and the requests issued. *)
Definition getStories (net : Request -> FetchOutcome (list WordPressPost))
    (this : ArchiveService) (options : ArchiveOptions)
    : ArchiveService * Stories * list Request :=
  let key := cacheKey options in
  match cachedStories this !! key with
  | Some cached =>
      (this,
       {| stories := cached; total := totalStories this;
          hasMore := lt (length_num cached) (totalStories this) |},
       [])
  | None =>
      let req := request options in
      (* the [catch] branch, followed by [finally] *)
      let failed :=
        ({| cachedStories := cachedStories this; totalStories := totalStories this;
            isLoading := false |}, empty_result, [req]) in
      match net req with
      | Rejected _ => failed
      | Responded ok _ xWpTotal body =>
          if negb ok then failed
          else match body with
               | BadJson _ => failed
               | Json fetched =>
                   let total' :=
                     match xWpTotal with
                     | Some t => if truthy t then parseInt t else length_num fetched
                     | None => length_num fetched
                     end in
                   ({| cachedStories := <[key := fetched]> (cachedStories this);
                       totalStories := total'; isLoading := false |},
                    {| stories := fetched; total := total';
                       hasMore := lt (length_num fetched) total' |},
                    [req])
               end
      end
  end.

Definition clearCache (this : ArchiveService) : ArchiveService :=
  {| cachedStories := ∅; totalStories := Num 0; isLoading := isLoading this |}.

(** A sequence of [getStories] calls, each completed before the next
    begins; every call comes with the answers of the network at its time. *)
Definition Call : Type := (Request -> FetchOutcome (list WordPressPost)) * ArchiveOptions.

Definition getStories_each (this : ArchiveService) (calls : list Call) : ArchiveService :=
  foldl (fun this call => (getStories call.1 this call.2).1.1) this calls.

End Archive.

(** ** [getStories] among other calls

    [getStories] reads the cache before it awaits the network and writes it
    afterwards, so calls made while another is waiting see the cache as it
    is then.  Here the call is cut at its [await]: [getStories_begin] is
    the part that runs when the method is called, [getStories_settle] the
    part that runs once the answer of the network is there, and between
    the two any other call may begin or settle. *)

Module ArchiveLoop.
Import JS Net WordPress Archive.

(** What a call has done when it hands back its promise: answered from the
    cache, or issued its request. *)
Inductive Started : Type :=
| Hit (result : Stories)
| Fetching (key : string) (req : Request).

(** Lines 42-90: the cache check and, on a miss, the request. *)
Definition getStories_begin (this : ArchiveService) (options : ArchiveOptions)
  : ArchiveService * Started :=
  let key := cacheKey options in
  match cachedStories this !! key with
  | Some cached =>
      (this,
       Hit {| stories := cached; total := totalStories this;
              hasMore := lt (length_num cached) (totalStories this) |})
  | None =>
      ({| cachedStories := cachedStories this; totalStories := totalStories this;
          isLoading := true |},
       Fetching key (request options))
  end.

(** Lines 92-118: what the call does with the answer.  [key] is the
    [cacheKey] the call computed when it began; the state is the one of the
    service when the answer is handled.  (The code awaits twice, the
    response and its body, and touches the service only after the second
    time, or in [finally].) *)
Definition getStories_settle (this : ArchiveService) (key : string)
    (outcome : FetchOutcome (list WordPressPost)) : ArchiveService * Stories :=
  let failed :=
    ({| cachedStories := cachedStories this; totalStories := totalStories this;
        isLoading := false |}, empty_result) in
  match outcome with
  | Rejected _ => failed
  | Responded ok _ xWpTotal body =>
      if negb ok then failed
      else match body with
           | BadJson _ => failed
           | Json fetched =>
               let total' :=
                 match xWpTotal with
                 | Some t => if truthy t then parseInt t else length_num fetched
                 | None => length_num fetched
                 end in
               ({| cachedStories := <[key := fetched]> (cachedStories this);
                   totalStories := total'; isLoading := false |},
                {| stories := fetched; total := total';
                   hasMore := lt (length_num fetched) total' |})
           end
  end.

(** The service and the calls that wait for the network, oldest first,
    each with its cache key and its request. *)
Record Loop : Type := {
  service : ArchiveService;
  pending : list (string * Request)
}.

Definition boot : Loop := {| service := new_ArchiveService; pending := [] |}.

Inductive Event : Type :=
| CallGetStories (options : ArchiveOptions)
| FetchSettles (i : nat) (outcome : FetchOutcome (list WordPressPost))
| CallClearCache.

(** What an event lets the outside see: a promise of [getStories] resolves,
    or a request goes to the network. *)
Inductive Effect : Type :=
| Resolves (result : Stories)
| Requests (req : Request)
| Silent.

(** One event; [None] when the event cannot happen (no such waiting
    call). *)
Definition step (l : Loop) (e : Event) : option (Loop * Effect) :=
  match e with
  | CallGetStories options =>
      match getStories_begin (service l) options with
      | (this, Hit result) =>
          Some ({| service := this; pending := pending l |}, Resolves result)
      | (this, Fetching key req) =>
          Some ({| service := this; pending := pending l ++ [(key, req)] |},
                Requests req)
      end
  | FetchSettles i outcome =>
      match pending l !! i with
      | Some (key, _) =>
          let '(this, result) := getStories_settle (service l) key outcome in
          Some ({| service := this; pending := delete i (pending l) |},
                Resolves result)
      | None => None
      end
  | CallClearCache =>
      Some ({| service := clearCache (service l); pending := pending l |}, Silent)
  end.

Fixpoint run (l : Loop) (es : list Event) : option (Loop * list Effect) :=
  match es with
  | [] => Some (l, [])
  | e :: es' =>
      match step l e with
      | Some (l1, effect) =>
          match run l1 es' with
          | Some (l2, effects) => Some (l2, effect :: effects)
          | None => None
          end
      | None => None
      end
  end.

End ArchiveLoop.

(** ** realtimeService.ts *)

Module Realtime.
Import JS Net WordPress.

Inductive UpdateType : Type := new_article | updated_article | breaking_news.

Record RealtimeUpdate : Type := {
  type : UpdateType;
  article : WordPressPost;
  timestamp : string
}.

(** A subscriber callback is a function object; [indexOf] compares
    function objects by identity, which is all the model keeps of them. *)
Definition Callback : Type := nat.

Record RealtimeService : Type := {
  lastUpdateTime : string;
  pollingInterval : Z;
  isPolling : bool;
  subscribers : list Callback;
  lastArticleIds : list Z
}.

Definition set_isPolling (b : bool) (this : RealtimeService) : RealtimeService :=
  {| lastUpdateTime := lastUpdateTime this; pollingInterval := pollingInterval this;
     isPolling := b; subscribers := subscribers this;
     lastArticleIds := lastArticleIds this |}.

Definition set_pollingInterval (ms : Z) (this : RealtimeService) : RealtimeService :=
  {| lastUpdateTime := lastUpdateTime this; pollingInterval := ms;
     isPolling := isPolling this; subscribers := subscribers this;
     lastArticleIds := lastArticleIds this |}.

Definition set_subscribers (l : list Callback) (this : RealtimeService) : RealtimeService :=
  {| lastUpdateTime := lastUpdateTime this; pollingInterval := pollingInterval this;
     isPolling := isPolling this; subscribers := l;
     lastArticleIds := lastArticleIds this |}.

Definition set_lastArticleIds (l : list Z) (this : RealtimeService) : RealtimeService :=
  {| lastUpdateTime := lastUpdateTime this; pollingInterval := pollingInterval this;
     isPolling := isPolling this; subscribers := subscribers this;
     lastArticleIds := l |}.

Definition set_lastUpdateTime (t : string) (this : RealtimeService) : RealtimeService :=
  {| lastUpdateTime := t; pollingInterval := pollingInterval this;
     isPolling := isPolling this; subscribers := subscribers this;
     lastArticleIds := lastArticleIds this |}.

(** *** The seen-set *)

(** One iteration of the [forEach] of [detectNewArticles]; the state is
    [newArticles] and [this.lastArticleIds]. *)
Definition detect_one (st : list WordPressPost * list Z) (a : WordPressPost)
  : list WordPressPost * list Z :=
  let '(newArticles, ids) := st in
  if negb (Set_has ids (post_id a))
  then (newArticles ++ [a], Set_add ids (post_id a))
  else (newArticles, ids).

(** The identifiers after the [forEach], before the size check. *)
Definition detect_loop (ids : list Z) (articles : list WordPressPost)
  : list WordPressPost * list Z :=
  foldl detect_one ([], ids) articles.

(** Lines 76-80: keep the last 50 identifiers once there are more than 100. *)
Definition prune (ids : list Z) : list Z :=
  if (100 <? length ids)%nat then Set_from (slice_last 50 ids) else ids.

Definition detectNewArticles (this : RealtimeService) (articles : list WordPressPost)
  : list WordPressPost * RealtimeService :=
  let '(newArticles, ids) := detect_loop (lastArticleIds this) articles in
  (newArticles, set_lastArticleIds (prune ids) this).

(** *** Subscriptions *)

(** [indexOf] followed by [splice(index, 1)]: drops the first occurrence. *)
Fixpoint remove_first (cb : Callback) (l : list Callback) : list Callback :=
  match l with
  | [] => []
  | x :: l' => if decide (x = cb) then l' else x :: remove_first cb l'
  end.

(** The closure [subscribe] returns; it captures [callback] only. *)
Definition unsubscribe (callback : Callback) (this : RealtimeService) : RealtimeService :=
  set_subscribers (remove_first callback (subscribers this)) this.

(** [subscribe(callback)]: the service after the [push]; the handle it
    returns is [unsubscribe callback]. *)
Definition subscribe (callback : Callback) (this : RealtimeService) : RealtimeService :=
  set_subscribers (subscribers this ++ [callback]) this.

(** [notifySubscribers(update)]: the callbacks invoked, in order.  A
    callback that throws is caught, so every subscriber is invoked. *)
Definition notifySubscribers (this : RealtimeService) (update : RealtimeUpdate)
  : list (Callback * RealtimeUpdate) :=
  map (fun callback => (callback, update)) (subscribers this).

Section Clock.
(** [new Date(s).getTime()], [None] for an invalid date *)
Variable Date_parse : string -> option Z.
(** [new Date(ms).toISOString()] *)
Variable toISOString : Z -> string.

(** [determineUpdateType(article)] when [Date.now()] is [now]. *)
Definition determineUpdateType (now : Z) (a : WordPressPost) : UpdateType :=
  let title := toLowerCase (post_title a) in
  let content := toLowerCase (post_content a) in
  if includes title "breaking" || includes title "urgent" ||
     includes content "breaking" || includes content "urgent"
  then breaking_news
  else
    let oneHourAgo := now - 60 * 60 * 1000 in
    match Date_parse (post_date a) with
    | Some articleDate =>
        if oneHourAgo <? articleDate then new_article else updated_article
    | None => updated_article
    end.

Definition make_update (now : Z) (a : WordPressPost) : RealtimeUpdate :=
  {| type := determineUpdateType now a; article := a; timestamp := toISOString now |}.

(** [checkForUpdates()], given how [getPosts(20)] settled. *)
Definition checkForUpdates (now : Z) (fetched : Result (list WordPressPost))
    (this : RealtimeService) : list RealtimeUpdate * RealtimeService :=
  match fetched with
  | Ok articles =>
      let '(newArticles, this') := detectNewArticles this articles in
      (map (make_update now) newArticles, this')
  | Err _ => ([], this)
  end.

(** *** The event loop around the poller

    [inflight] counts the calls of [pollForUpdates] suspended at
    [await getPosts(10)]; [timers] holds the delay of every pending
    [setTimeout(() => this.pollForUpdates(), ...)]; [delivered] logs
    the callback invocations. *)
Record World : Type := {
  svc : RealtimeService;
  inflight : nat;
  timers : list Z;
  delivered : list (Callback * RealtimeUpdate)
}.

Definition with_svc (s : RealtimeService) (w : World) : World :=
  {| svc := s; inflight := inflight w; timers := timers w; delivered := delivered w |}.

(** [pollForUpdates()] up to its [await]. *)
Definition pollForUpdates (w : World) : World :=
  if negb (isPolling (svc w)) then w
  else {| svc := svc w; inflight := S (inflight w); timers := timers w;
          delivered := delivered w |}.

(** [pollForUpdates()] from its [await] to the end: the [try] body or
    the [catch], then the unconditional [setTimeout]. *)
Definition pollForUpdates_resume (now : Z) (fetched : Result (list WordPressPost))
    (w : World) : World :=
  let '(out, s) :=
    match fetched with
    | Ok articles =>
        let '(newArticles, s) := detectNewArticles (svc w) articles in
        (flat_map (fun a => notifySubscribers s (make_update now a)) newArticles,
         set_lastUpdateTime (toISOString now) s)
    | Err _ => ([], svc w)
    end in
  {| svc := s; inflight := pred (inflight w);
     timers := timers w ++ [pollingInterval s];
     delivered := delivered w ++ out |}.

Definition startPolling (w : World) : World :=
  if isPolling (svc w) then w
  else pollForUpdates (with_svc (set_isPolling true (svc w)) w).

Definition stopPolling (w : World) : World :=
  with_svc (set_isPolling false (svc w)) w.

Definition setPollingInterval (seconds : Z) (w : World) : World :=
  with_svc (set_pollingInterval (seconds * 1000) (svc w)) w.

Definition reset (now : Z) (w : World) : World :=
  let w := stopPolling w in
  with_svc (set_lastUpdateTime (toISOString now)
             (set_subscribers [] (set_lastArticleIds [] (svc w)))) w.

(** What can happen next: a call from the UI, a pending request
    settling, or a pending timer firing.  [CallCheckForUpdates] stands for
    the moment the [getPosts(20)] of a manual check settles; the call
    itself changes nothing before that. *)
Inductive Event : Type :=
| CallStartPolling
| CallStopPolling
| CallSetPollingInterval (seconds : Z)
| CallSubscribe (callback : Callback)
| CallUnsubscribe (callback : Callback)
| CallCheckForUpdates (now : Z) (fetched : Result (list WordPressPost))
| CallReset (now : Z)
| PostsSettle (now : Z) (fetched : Result (list WordPressPost))
| TimerFires (i : nat).

(** One turn of the event loop; [None] when the event cannot happen
    (no request in flight, no such timer). *)
Definition step (w : World) (e : Event) : option World :=
  match e with
  | CallStartPolling => Some (startPolling w)
  | CallStopPolling => Some (stopPolling w)
  | CallSetPollingInterval s => Some (setPollingInterval s w)
  | CallSubscribe cb => Some (with_svc (subscribe cb (svc w)) w)
  | CallUnsubscribe cb => Some (with_svc (unsubscribe cb (svc w)) w)
  | CallCheckForUpdates now fetched =>
      Some (with_svc (snd (checkForUpdates now fetched (svc w))) w)
  | CallReset now => Some (reset now w)
  | PostsSettle now fetched =>
      match inflight w with
      | O => None
      | S _ => Some (pollForUpdates_resume now fetched w)
      end
  | TimerFires i =>
      match timers w !! i with
      | None => None
      | Some _ =>
          Some (pollForUpdates
                  {| svc := svc w; inflight := inflight w;
                     timers := delete i (timers w); delivered := delivered w |})
      end
  end.

Fixpoint run (w : World) (es : list Event) : option World :=
  match es with
  | [] => Some w
  | e :: es' =>
      match step w e with
      | Some w' => run w' es'
      | None => None
      end
  end.

(** The service as constructed, at time [now]. *)
Definition new_RealtimeService (now : Z) : RealtimeService :=
  {| lastUpdateTime := toISOString now; pollingInterval := 30000;
     isPolling := false; subscribers := []; lastArticleIds := [] |}.

Definition boot (now : Z) : World :=
  {| svc := new_RealtimeService now; inflight := 0; timers := []; delivered := [] |}.

(** The poll chains alive in [w]: each one is either awaiting its
    posts or waiting for its timer. *)
Definition chains (w : World) : nat := (inflight w + length (timers w))%nat.
End Clock.

End Realtime.

(** ** src/components/StoryImage.tsx *)

Module StoryImage.
Import JS Net.

(** One entry of [media_details.sizes]. *)
Record Size : Type := {
  source_url : string;
  width : Z;
  height : Z
}.

(** [WordPressImage]: [sizes] is [image.media_details?.sizes], an object
    whose keys are kept in insertion order (the order [Object.values]
    follows); [None] when [media_details] or [sizes] is missing. *)
Record WordPressImage : Type := {
  image_source_url : string;
  sizes : option (list (string * Size))
}.

(** [sizes?.name?.source_url], the empty string standing for a missing
    tier or URL (both are falsy). *)
Fixpoint assoc (name : string) (l : list (string * Size)) : option Size :=
  match l with
  | [] => None
  | (k, v) :: l' => if decide (k = name) then Some v else assoc name l'
  end.

Definition tier_url (sizes : option (list (string * Size))) (name : string) : string :=
  match sizes with
  | None => ""
  | Some l => match assoc name l with Some sz => source_url sz | None => "" end
  end.

(** [if (sizes?.name?.source_url) urls.push(sizes.name.source_url)] for
    each of the names, in order. *)
Definition push_tiers (sizes : option (list (string * Size))) (names : list string)
  : list string :=
  filter (fun u => Is_true (truthy u)) (map (tier_url sizes) names).

Definition web_tiers : list string := ["thumbnail"; "medium"; "woocommerce_thumbnail"].

Definition fallback_tiers : list string :=
  ["thumbnail"; "medium"; "woocommerce_thumbnail"; "medium_large"; "large"; "full"].

(** The callback of the [reduce] of line 65, for a truthy [best]. *)
Definition closer (targetWidth : Z) (best current : Size) : Size :=
  let bestDiff := Z.abs (width best - targetWidth) in
  let currentDiff := Z.abs (width current - targetWidth) in
  if currentDiff <? bestDiff then current else best.

(** [availableSizes.reduce(...)] without an initial value: a
    [TypeError] on the empty array. *)
Definition bestSize (targetWidth : Z) (availableSizes : list Size) : Result Size :=
  match availableSizes with
  | [] => Err "Reduce of empty array with no initial value"
  | first :: rest => Ok (foldl (closer targetWidth) first rest)
  end.

Definition availableSizes (l : list (string * Size)) : list Size :=
  filter (fun sz => Is_true (truthy (source_url sz))) (map snd l).

(** [bestSize.width <= targetWidth * 1.5] *)
Definition not_oversized (targetWidth : Z) (sz : Size) : bool :=
  2 * width sz <=? 3 * targetWidth.

(** Lines 62-75: what the width heuristic pushes. *)
Definition push_best (targetWidth : option Z) (sizes : option (list (string * Size)))
  : Result (list string) :=
  match targetWidth, sizes with
  | Some t, Some l =>
      if negb (t =? 0) then
        match bestSize t (availableSizes l) with
        | Err e => Err e
        | Ok best => Ok (if not_oversized t best then [source_url best] else [])
        end
      else Ok []
  | _, _ => Ok []
  end.

(** [uniqueUrls] of [getImageUrl], for an image that is present; [web]
    is [Platform.OS === 'web']. *)
Definition uniqueUrls (web : bool) (image : WordPressImage) (targetWidth : option Z)
  : Result (list string) :=
  let sizes := sizes image in
  let originalUrl := image_source_url image in
  let first := if web then push_tiers sizes web_tiers else [] in
  match push_best targetWidth sizes with
  | Err e => Err e
  | Ok best =>
      Ok (unique [] (first ++ best ++ push_tiers sizes fallback_tiers ++ [originalUrl]))
  end.

(** [getImageUrl(targetWidth)]: [null] without an image, else
    [uniqueUrls[0] || originalUrl]. *)
Definition getImageUrl (web : bool) (image : option WordPressImage)
    (targetWidth : option Z) : Result (option string) :=
  match image with
  | None => Ok None
  | Some img =>
      match uniqueUrls web img targetWidth with
      | Err e => Err e
      | Ok urls =>
          Ok (Some (match urls with
                    | u :: _ => if truthy u then u else image_source_url img
                    | [] => image_source_url img
                    end))
      end
  end.

(** [getAllUrls()] *)
Definition getAllUrls (image : option WordPressImage) : list string :=
  match image with
  | None => []
  | Some img =>
      unique [] (push_tiers (sizes img) fallback_tiers ++
                 (if truthy (image_source_url img) then [image_source_url img] else []))
  end.

End StoryImage.

(** ** Vocabulary of the specification

    Predicates that follow the words of the specification, to be compared
    with what the code computes. *)

Module Spec.
Import JS Net WordPress.

(** [s] contains [kw], whatever the case of its letters. *)
Definition contains_ci (s kw : string) : Prop :=
  exists pre mid post, s = pre +:+ mid +:+ post /\ toLowerCase mid = kw.

(** The title or the body contains "breaking" or "urgent". *)
Definition has_keyword (a : WordPressPost) : Prop :=
  contains_ci (post_title a) "breaking" \/ contains_ci (post_title a) "urgent" \/
  contains_ci (post_content a) "breaking" \/ contains_ci (post_content a) "urgent".

(** The publish timestamp is a date within the last hour: later than one
    hour before [now], and not later than [now]. *)
Definition within_last_hour (published : option Z) (now : Z) : Prop :=
  exists t, published = Some t /\ now - 3600000 < t /\ t <= now.

(** The publish timestamp is a date later than one hour before [now]: a
    date within the last hour, or one that lies ahead of [now]. *)
Definition since_hour_ago (published : option Z) (now : Z) : Prop :=
  exists t, published = Some t /\ now - 3600000 < t.

(** The seen-set is a set of at most 100 identifiers. *)
Definition seen_ok (ids : list Z) : Prop := NoDup ids /\ (length ids <= 100)%nat.

(** The underlying fetch failed: network error, non-OK status or a body
    that does not decode. *)
Definition fetch_failed {A} (o : FetchOutcome A) : Prop :=
  match o with
  | Rejected _ => True
  | Responded ok _ _ body =>
      ok = false \/ match body with BadJson _ => True | Json _ => False end
  end.

(** How far a tier is from the target width. *)
Definition off (targetWidth : Z) (sz : StoryImage.Size) : Z :=
  Z.abs (StoryImage.width sz - targetWidth).

(** The category lookup found nothing: network error, non-OK status,
    undecodable body or no matching category. *)
Definition resolution_fails (o : FetchOutcome (list Z)) : Prop :=
  fetch_failed o \/ exists ok status total, o = Responded ok status total (Json []).

End Spec.

(** ** Sample data *)

Module Fixtures.
Import JS Net WordPress Archive Realtime StoryImage.

Abbreviation Fetch := (Request -> FetchOutcome (list WordPressPost)).

Definition local_news : WordPressPost :=
  {| post_id := 101; post_date := "2024-05-01T08:00:00";
     post_title := "Council approves budget"; post_content := "The city council met." |}.

Definition local_more : WordPressPost :=
  {| post_id := 102; post_date := "2024-05-01T09:00:00";
     post_title := "Road work begins"; post_content := "Crews start on Main Street." |}.

Definition sports_news : WordPressPost :=
  {| post_id := 201; post_date := "2024-05-01T10:00:00";
     post_title := "Tigers win opener"; post_content := "A late goal decided the game." |}.

(** A server that answers every posts request with the same page. *)
Definition answers (xWpTotal : string) (posts : list WordPressPost) : Fetch :=
  fun _ => Responded true 200 (Some xWpTotal) (Json posts).

(** A server that is down. *)
Definition unreachable : Fetch := fun _ => Rejected "Network request failed".

Definition in_category (c : string) : ArchiveOptions :=
  {| category := Some c; search := None; dateFrom := None; dateTo := None;
     author := None; perPage := None |}.

Definition searching (c q : string) : ArchiveOptions :=
  {| category := Some c; search := Some q; dateFrom := None; dateTo := None;
     author := None; perPage := Some 10 |}.

(** A sample clock: every date prints and reads as noon UTC on 1 May 2024
    (1714564800000 ms). *)
Definition clock_text : Z -> string := fun _ => "2024-05-01T12:00:00.000Z".
Definition clock_read : string -> option Z := fun _ => Some 1714564800000.

(** The posts with identifiers [first], ..., [first + n - 1]. *)
Definition numbered (first : Z) (n : nat) : list WordPressPost :=
  map (fun i => {| post_id := first + Z.of_nat i; post_date := "";
                   post_title := ""; post_content := "" |}) (seq 0 n).

(** Five manual checks of twenty new posts each, on a fresh service. *)
Definition five_checks : list (Event) :=
  map (fun k => CallCheckForUpdates 0 (Ok (numbered (1 + 20 * Z.of_nat k) 20))) (seq 0 5).

Definition full_world : World :=
  default (boot clock_text 0) (run clock_read clock_text (boot clock_text 0) five_checks).

Definition breaking_story : WordPressPost :=
  {| post_id := 301; post_date := "2024-05-01T06:00:00";
     post_title := "BREAKING: highway closed"; post_content := "Details to follow." |}.

(** The image of the width example: tiers of width 150, 400 and 1200. *)
Definition photo_thumbnail : Size :=
  {| source_url := "https://eastidahonews.com/photo-150x150.jpg";
     width := 150; height := 150 |}.

Definition photo_medium : Size :=
  {| source_url := "https://eastidahonews.com/photo-400x200.jpg";
     width := 400; height := 200 |}.

Definition photo_large : Size :=
  {| source_url := "https://eastidahonews.com/photo-1200x600.jpg";
     width := 1200; height := 600 |}.

Definition photo_sizes : list (string * Size) :=
  [("thumbnail", photo_thumbnail); ("medium", photo_medium); ("large", photo_large)].

Definition photo : WordPressImage :=
  {| image_source_url := "https://eastidahonews.com/photo.jpg";
     sizes := Some photo_sizes |}.

(** An image for which WordPress generated no tier. *)
Definition untiered : WordPressImage :=
  {| image_source_url := "https://eastidahonews.com/logo.svg"; sizes := Some [] |}.

(** A categories endpoint that knows the slug "local" only. *)
Definition site : Network :=
  {| posts_at := fun _ => Responded true 200 (Some "2") (Json [local_news; local_more]);
     categories_at := fun url =>
       if decide (url = WORDPRESS_API_URL +:+ "/categories?slug=local")
       then Responded true 200 None (Json [3])
       else Responded true 200 None (Json []) |}.

End Fixtures.

(** ** More of src/services/wordpressService.ts: text helpers *)

Module WordPressText.
Import JS.

(** [s.includes(c)] for one character. *)
Fixpoint has_char (c : ascii) (s : string) : bool :=
  match s with
  | EmptyString => false
  | String x s' => if decide (x = c) then true else has_char c s'
  end.

(** [html.replace(/<[^>]*>/g, '')], read from left to right.  A ["<"]
    opens a match only if a [">"] follows somewhere; the match then runs to
    the first [">"].  When no [">"] follows, nothing matches from there on
    and the rest is kept.  [inside] tells whether a match is open. *)
Fixpoint removeTags_from (inside : bool) (s : string) : string :=
  match s with
  | EmptyString => EmptyString
  | String c s' =>
      if inside then
        if decide (c = ">"%char) then removeTags_from false s'
        else removeTags_from true s'
      else if decide (c = "<"%char) then
        if has_char ">" s' then removeTags_from true s' else s
      else String c (removeTags_from false s')
  end.

Definition removeTags (html : string) : string := removeTags_from false html.

(** [s.replace(/&nbsp;/g, ' ')]: every occurrence, leftmost first, not
    overlapping.  [skip] counts the characters of the current occurrence
    that are still to be dropped. *)
Fixpoint replaceNbsp_from (skip : nat) (s : string) : string :=
  match s with
  | EmptyString => EmptyString
  | String c s' =>
      match skip with
      | S k => replaceNbsp_from k s'
      | O =>
          if startsWith s "&nbsp;" then String " " (replaceNbsp_from 5 s')
          else String c (replaceNbsp_from 0 s')
      end
  end.

Definition replaceNbsp (s : string) : string := replaceNbsp_from 0 s.

(** [s.trimEnd()] *)
Fixpoint trimEnd (s : string) : string :=
  match s with
  | EmptyString => EmptyString
  | String c s' =>
      match trimEnd s' with
      | EmptyString => if isWhiteSpace c then EmptyString else String c EmptyString
      | r => String c r
      end
  end.

(** [s.trim()] *)
Definition trim (s : string) : string := trimEnd (trimStart s).

(** [stripHtml(html)].  Nothing in the [try] block throws for a string, so
    the [catch] is never entered. *)
Definition stripHtml (html : string) : string :=
  trim (replaceNbsp (removeTags html)).

(** [`${n > 1 ? 's' : ''}`] *)
Definition plural (n : Z) : string := if 1 <? n then "s" else "".

Section Clock.
(** [new Date(s).getTime()], [None] for an invalid date *)
Variable Date_parse : string -> option Z.

(** [formatDate(dateString)] when [Date.now()] is [now].  [new Date] does
    not throw, so the [catch] is never entered; an invalid date makes every
    number [NaN], every comparison false, and the text "NaN day ago".  The
    quotients are exact while [now - t] stays below 2^47 ms. *)
Definition formatDate (now : Z) (dateString : string) : string :=
  match Date_parse dateString with
  | None => "NaN day ago"
  | Some t =>
      let diffInHours := (now - t) / (1000 * 60 * 60) in
      if diffInHours <? 1 then "Just now"
      else if diffInHours <? 24 then
        show diffInHours +:+ " hour" +:+ plural diffInHours +:+ " ago"
      else
        let diffInDays := diffInHours / 24 in
        show diffInDays +:+ " day" +:+ plural diffInDays +:+ " ago"
  end.
End Clock.

End WordPressText.

(** ** More of src/services/archiveService.ts: the query helpers *)

Module ArchiveQueries.
Import JS Net WordPress Archive.

Abbreviation Fetch := (Request -> FetchOutcome (list WordPressPost)).

(** The helpers resolve to [result.stories]; the service after the call
    and the requests issued are those of [getStories]. *)
Definition stories_of (r : ArchiveService * Stories * list Request)
  : ArchiveService * list WordPressPost * list Request :=
  (r.1.1, stories r.1.2, r.2).

Definition getStoriesByDateRange (net : Fetch) (this : ArchiveService)
    (from to : string) (category : option string) :=
  stories_of (getStories net this
    {| category := category; search := None; dateFrom := Some from; dateTo := Some to;
       author := None; perPage := Some 100 |}).

Definition getStoriesByAuthor (net : Fetch) (this : ArchiveService)
    (authorId : string) (category : option string) :=
  stories_of (getStories net this
    {| category := category; search := None; dateFrom := None; dateTo := None;
       author := Some authorId; perPage := Some 100 |}).

Definition searchStories (net : Fetch) (this : ArchiveService)
    (query : string) (category : option string) :=
  stories_of (getStories net this
    {| category := category; search := Some query; dateFrom := None; dateTo := None;
       author := None; perPage := Some 100 |}).

(** The filter [getPopularStories(category, days)] builds when
    [Date.now()] is [now]; [days] defaults to 30.  [toISOString] is
    [new Date(ms).toISOString()], for a date in the range of [Date]. *)
Definition popular_options (toISOString : Z -> string) (now : Z)
    (category : option string) (days : option Z) : ArchiveOptions :=
  {| category := category; search := None;
     dateFrom := Some (toISOString (now - default 30 days * 24 * 60 * 60 * 1000));
     dateTo := None; author := None; perPage := Some 50 |}.

Definition getPopularStories (toISOString : Z -> string) (now : Z) (net : Fetch)
    (this : ArchiveService) (category : option string) (days : option Z) :=
  stories_of (getStories net this (popular_options toISOString now category days)).

(** [getCacheStats()]: [cachedQueries] and [totalStories]. *)
Definition getCacheStats (this : ArchiveService) : nat * jsnum :=
  (size (cachedStories this), totalStories this).

End ArchiveQueries.

(** ** src/components/DualCategoryTabs.tsx and the call of HomeScreen *)

Module CategoryTabs.
Import JS Net WordPress.

Record Category : Type := {
  cat_id : string;
  cat_name : string;
  cat_slug : string
}.

Definition cat (i n s : string) : Category :=
  {| cat_id := i; cat_name := n; cat_slug := s |}.

Definition REGULAR_CATEGORIES : list Category :=
  [ cat "all" "All News" "";
    cat "3" "Local News" "local";
    cat "17600" "Crime Watch" "crime";
    cat "1713" "Business" "business";
    cat "14228" "Education" "education";
    cat "34701" "Agriculture" "agriculture";
    cat "4" "Arts & Entertainment" "entertainment-news";
    cat "33609" "Food" "food";
    cat "14225" "Faith" "faith";
    cat "25232" "Features" "features";
    cat "30654" "Feel Good" "feel-good" ].

Definition SPORTS_CATEGORIES : list Category :=
  [ cat "sports-all" "All Sports" "sports-all";
    cat "34638" "National Sports" "national-sports";
    cat "34690" "Regional Sports" "regional-sports";
    cat "14222" "Outdoors" "outdoors";
    cat "34596" "Football" "football";
    cat "34598" "Basketball" "basketball";
    cat "34594" "Baseball" "baseball";
    cat "34601" "Soccer" "soccer";
    cat "34609" "Hockey" "hockey";
    cat "34615" "Golf" "golf";
    cat "34667" "Athlete of the Week" "athlete-of-the-week";
    cat "34666" "Game of the Week" "game-of-the-week";
    cat "34634" "Game Report" "game-report";
    cat "34617" "Football Scores" "football-scores";
    cat "34607" "Boys Basketball Scores" "boys-basketball-scores";
    cat "34608" "Girls Basketball Scores" "girls-basketball-scores";
    cat "34600" "Baseball Scores" "baseball-scores";
    cat "34602" "Boys Soccer Scores" "boys-soccer-scores";
    cat "34603" "Girls Soccer Scores" "girls-soccer-scores" ].

Definition FEATURED_COLUMNS : list Category :=
  [ cat "featured-all" "All Featured Columns" "featured-all";
    cat "33629" "7 Questions" "7-questions";
    cat "33654" "Ask the Doctor" "ask-the-doctor";
    cat "33557" "Biz Buzz" "biz-buzz";
    cat "34697" "Courtroom Insider" "courtroom-insider";
    cat "25233" "Dave Says" "dave-says";
    cat "33635" "East Idaho Eats" "east-idaho-eats";
    cat "31250" "Feel Good Friday" "feel-good-friday";
    cat "35316" "Legally Speaking" "legally-speaking";
    cat "27012" "Living the Wild Life" "living-the-wild-life";
    cat "33641" "Looking Back" "looking-back";
    cat "33627" "Pet of the Week" "pet-of-the-week";
    cat "33660" "Savvy Senior" "savvy-senior";
    cat "32014" "Secret Santa" "secret-santa" ].

Inductive TabType : Type := regular | featured | sports.

(** [getCurrentCategories()] when [activeTab] is [tab]. *)
Definition getCurrentCategories (tab : TabType) : list Category :=
  match tab with
  | regular => REGULAR_CATEGORIES
  | featured => FEATURED_COLUMNS
  | sports => SPORTS_CATEGORIES
  end.

(** The category [handleTabPress(tab)] hands to [onCategorySelect]: the
    first of the tab ([None] stands for [undefined]). *)
Definition handleTabPress (tab : TabType) : option Category :=
  head (getCurrentCategories tab).

(** The requests of [loadPosts(category, pageNum)] of HomeScreen, which
    calls [getPosts(10, category.id, pageNum)]. *)
Definition loadPosts_url (net : Network) (category : Category) (pageNum : Z)
  : list string * string :=
  posts_url net 10 (cat_id category) pageNum.

End CategoryTabs.

(** ** More of src/components/StoryImage.tsx: walking the candidates *)

Module ImageLoading.

(** The state variables the load handlers read and set, as one render
    sees them. *)
Record LoadState : Type := {
  urlIndex : Z;
  loading : bool;
  error : bool;
  retryCount : Z
}.

(** The state of a component that has just been mounted. *)
Definition mounted : LoadState :=
  {| urlIndex := 0; loading := true; error := false; retryCount := 0 |}.

(** [handleError()] in a render whose [allUrls] has [n] entries. *)
Definition handleError (n : nat) (st : LoadState) : LoadState :=
  if urlIndex st <? Z.of_nat n - 1 then
    {| urlIndex := urlIndex st + 1; loading := true; error := false;
       retryCount := retryCount st |}
  else
    {| urlIndex := urlIndex st; loading := false; error := true;
       retryCount := retryCount st |}.

(** [handleRetry()] *)
Definition handleRetry (st : LoadState) : LoadState :=
  {| urlIndex := 0; loading := true; error := false; retryCount := retryCount st + 1 |}.

(** The Retry button is rendered when [error && retryCount < 2]. *)
Definition canRetry (st : LoadState) : bool := error st && (retryCount st <? 2).

(** [allUrls[urlIndex]], the URL the image is loaded from. *)
Definition currentImageUrl (allUrls : list string) (st : LoadState) : option string :=
  if urlIndex st <? 0 then None else allUrls !! Z.to_nat (urlIndex st).

End ImageLoading.

(** ** Vocabulary for the further properties *)

Module Terms.
Import JS Net WordPress Archive.

(** [c] is one of the characters 0-9. *)
Definition is_digit (c : ascii) : bool := (48 <=? code c) && (code c <=? 57).

Fixpoint all_digits (s : string) : bool :=
  match s with
  | EmptyString => true
  | String c s' => is_digit c && all_digits s'
  end.

(** The text is an integer numeral: digits only, after an optional minus
    sign. *)
Definition integer_text (s : string) : bool :=
  match s with
  | String "-" s' => negb (bool_decide (s' = "")) && all_digits s'
  | _ => negb (bool_decide (s = "")) && all_digits s
  end.

(** The start of every posts URL of [getPosts]. *)
Definition posts_base (perPage page : Z) : string :=
  WORDPRESS_API_URL +:+ "/posts?per_page=" +:+ show perPage
    +:+ "&page=" +:+ show page +:+ "&_embed".

(** The URL of the category lookup for a slug. *)
Definition lookup_url (slug : string) : string :=
  WORDPRESS_API_URL +:+ "/categories?slug=" +:+ slug.

(** [getPosts] has to look the category up: it is neither empty, nor an
    aggregate token, nor read as a number by [parseInt]. *)
Definition needs_lookup (slug : string) : bool :=
  truthy slug && negb (bool_decide (slug = "featured-all"))
    && negb (bool_decide (slug = "sports-all")) && isNaN (parseInt slug).

(** The items of a settled fetch, when it succeeded. *)
Definition fetched_items (o : FetchOutcome (list WordPressPost))
  : option (list WordPressPost) :=
  match o with
  | Responded true _ _ (Json fetched) => Some fetched
  | _ => None
  end.

(** The total a settled fetch reports when it succeeded: the header
    X-WP-Total read as a number when there is one and it is not empty, else
    the number of items. *)
Definition fetched_total (o : FetchOutcome (list WordPressPost)) : option jsnum :=
  match o with
  | Responded true _ xWpTotal (Json fetched) =>
      Some (match xWpTotal with
            | Some t => if truthy t then parseInt t else length_num fetched
            | None => length_num fetched
            end)
  | _ => None
  end.

(** The total of the fetch that succeeded last among the events, zero if
    the cache was cleared since, [init] if there was neither. *)
Fixpoint running_total (es : list ArchiveLoop.Event) (init : jsnum) : jsnum :=
  match es with
  | [] => init
  | e :: es' =>
      running_total es'
        match e with
        | ArchiveLoop.FetchSettles _ o => default init (fetched_total o)
        | ArchiveLoop.CallClearCache => Num 0
        | ArchiveLoop.CallGetStories _ => init
        end
  end.

(** No call that waits for the network has this cache key. *)
Definition none_waiting (key : string) (l : ArchiveLoop.Loop) : Prop :=
  Forall (fun p => p.1 <> key) (ArchiveLoop.pending l).

(** The value the request carries under a name, if any. *)
Fixpoint param (key : string) (req : Request) : option string :=
  match req with
  | [] => None
  | (k, v) :: req' => if decide (k = key) then Some v else param key req'
  end.

(** The poller has one chain when polling and none otherwise. *)
Definition one_chain (w : Realtime.World) : Prop :=
  Realtime.chains w =
  if Realtime.isPolling (Realtime.svc w) then 1%nat else 0%nat.

(** The event calls [stopPolling()], directly or through [reset()]. *)
Definition stops (e : Realtime.Event) : bool :=
  match e with
  | Realtime.CallStopPolling | Realtime.CallReset _ => true
  | _ => false
  end.

(** The text contains a complete tag: a ["<"] and, later, a [">"]. *)
Definition has_tag (s : string) : Prop :=
  exists pre mid post, s = pre +:+ "<" +:+ mid +:+ ">" +:+ post.

(** No ["<"] of the text is followed by a [">"]. *)
Fixpoint tagfree (s : string) : bool :=
  match s with
  | EmptyString => true
  | String c s' =>
      (if decide (c = "<"%char) then negb (WordPressText.has_char ">" s') else true)
      && tagfree s'
  end.

(** The text neither starts nor ends with white space. *)
Definition trimmed (s : string) : Prop :=
  (forall c rest, s = String c rest -> isWhiteSpace c = false) /\
  (forall pre c, s = pre +:+ String c "" -> isWhiteSpace c = false).

End Terms.

(** ** Further sample data *)

Module Samples.
Import JS Net WordPress Realtime Fixtures.

(** A poller that was started and stopped at once, and what becomes of it
    when its poll fails and its timer fires. *)
Definition stopped_world : World :=
  stopPolling (startPolling (boot clock_text 0)).

Definition stopped_events : list Event :=
  [PostsSettle 0 (Err "down"); TimerFires 0].

Definition stopped_later : World :=
  default stopped_world (run clock_read clock_text stopped_world stopped_events).

(** Two calls for "local" begin before either is answered; the first is
    answered with two stories of 100, the second, later, with one story of
    one; after each answer a further call for "local" is made. *)
Definition overlapping : list ArchiveLoop.Event :=
  [ ArchiveLoop.CallGetStories (in_category "local");
    ArchiveLoop.CallGetStories (in_category "local");
    ArchiveLoop.FetchSettles 0
      (Responded true 200 (Some "100") (Json [local_news; local_more]));
    ArchiveLoop.CallGetStories (in_category "local");
    ArchiveLoop.FetchSettles 0 (Responded true 200 (Some "1") (Json [local_news]));
    ArchiveLoop.CallGetStories (in_category "local") ].

(** The service once "local" is cached with two stories of 100 and no call
    is waiting, and calls and answers for other filters that follow. *)
Definition local_cached : ArchiveLoop.Loop :=
  {| ArchiveLoop.service :=
       (Archive.getStories (answers "100" [local_news; local_more])
          Archive.new_ArchiveService (in_category "local")).1.1;
     ArchiveLoop.pending := [] |}.

(** The service when the first of the [overlapping] calls has been
    answered and the second still waits. *)
Definition one_waiting : ArchiveLoop.Loop :=
  default ArchiveLoop.boot (fst <$> ArchiveLoop.run ArchiveLoop.boot (take 3 overlapping)).

Definition sports_traffic : list ArchiveLoop.Event :=
  [ ArchiveLoop.CallGetStories (in_category "sports");
    ArchiveLoop.CallGetStories (in_category "local");
    ArchiveLoop.FetchSettles 0 (Responded true 200 (Some "1") (Json [sports_news]));
    ArchiveLoop.CallGetStories (in_category "local") ].

End Samples.

(** * Properties *)

(** ** Facts about the JavaScript primitives *)

Module JSFacts.
Import JS.

Example parseInt_id : parseInt "33629" = Num 33629.
Proof. reflexivity. Qed.

Example parseInt_slug : parseInt "sports" = NaN.
Proof. reflexivity. Qed.

Example parseInt_mixed : parseInt " -12abc" = Num (-12).
Proof. reflexivity. Qed.

Example parseInt_hex : parseInt "0x1f" = Num 31.
Proof. reflexivity. Qed.

Example show_10 : show 10 = "10".
Proof. vm_compute. reflexivity. Qed.

Example show_neg : show (-7) = "-7".
Proof. vm_compute. reflexivity. Qed.

(** *** Strings *)

Local Arguments String.append !_ _ / : simpl nomatch.

Lemma sapp_nil_r (s : string) : s +:+ "" = s.
Proof. induction s as [|c s IH]; simpl; [done | by rewrite IH]. Qed.

Lemma sapp_assoc (a b c : string) : (a +:+ b) +:+ c = a +:+ (b +:+ c).
Proof. induction a as [|x a IH]; simpl; [done | by rewrite IH]. Qed.

Lemma toLowerCase_app (a b : string) :
  toLowerCase (a +:+ b) = toLowerCase a +:+ toLowerCase b.
Proof. induction a as [|x a IH]; simpl; [done | by rewrite IH]. Qed.

(** A lower-cased string splits where its source splits. *)
Lemma toLowerCase_split (s a b : string) :
  toLowerCase s = a +:+ b ->
  exists s1 s2, s = s1 +:+ s2 /\ toLowerCase s1 = a /\ toLowerCase s2 = b.
Proof.
  revert s. induction a as [|x a IH]; intros s H.
  - exists "", s. done.
  - destruct s as [|c s]; simpl in H; [done|].
    injection H as Hc Hs.
    destruct (IH _ Hs) as (s1 & s2 & -> & H1 & H2).
    exists (String c s1), s2. simpl. by rewrite Hc, H1.
Qed.

Lemma startsWith_spec (s kw : string) :
  startsWith s kw = true <-> exists post, s = kw +:+ post.
Proof.
  revert s. induction kw as [|k kw IH]; intros s; simpl.
  - split; [intros _; by exists s | done].
  - destruct s as [|c s].
    + split; [done | intros [post H]; done].
    + destruct (decide (k = c)) as [->|Hne].
      * rewrite IH. split; intros [post H]; exists post; simpl in *; congruence.
      * split; [done | intros [post H]; simpl in H; congruence].
Qed.

Lemma includes_spec (s kw : string) :
  includes s kw = true <-> exists pre post, s = pre +:+ kw +:+ post.
Proof.
  induction s as [|c s IH]; simpl.
  - rewrite orb_false_r, startsWith_spec. split.
    + intros [post H]. by exists "", post.
    + intros (pre & post & H). destruct pre; [by exists post | done].
  - rewrite orb_true_iff, startsWith_spec, IH. split.
    + intros [[post H] | (pre & post & H)].
      * by exists "", post.
      * exists (String c pre), post. simpl. by rewrite H.
    + intros (pre & post & H). destruct pre as [|x pre]; simpl in H.
      * left. by exists post.
      * right. injection H as _ H. by exists pre, post.
Qed.

(** *** Insertion-ordered sets *)

Lemma Set_add_NoDup (s : list Z) (x : Z) : NoDup s -> NoDup (Set_add s x).
Proof.
  intros H. unfold Set_add, Set_has. case_bool_decide; [done|].
  apply NoDup_app. split_and!; [done | | apply NoDup_singleton].
  intros y Hy Hy'. apply list_elem_of_singleton in Hy'. by subst.
Qed.

Lemma Set_add_length (s : list Z) (x : Z) :
  (length (Set_add s x) <= S (length s))%nat.
Proof.
  unfold Set_add. destruct (Set_has s x); [lia|].
  rewrite length_app. simpl. lia.
Qed.

Lemma Set_from_acc_length (l acc : list Z) :
  (length (foldl Set_add acc l) <= length acc + length l)%nat.
Proof.
  revert acc. induction l as [|x l IH]; intros acc; simpl; [lia|].
  specialize (IH (Set_add acc x)). pose proof (Set_add_length acc x). lia.
Qed.

Lemma Set_from_length (l : list Z) : (length (Set_from l) <= length l)%nat.
Proof. apply (Set_from_acc_length l []). Qed.

Lemma Set_from_acc_NoDup (l acc : list Z) :
  NoDup (acc ++ l) -> foldl Set_add acc l = acc ++ l.
Proof.
  revert acc. induction l as [|x l IH]; intros acc H; simpl.
  - by rewrite app_nil_r.
  - assert (Hx : x ∉ acc).
    { apply NoDup_app in H as (_ & H & _). intros Hin. apply (H x Hin). left. }
    unfold Set_add at 2, Set_has. rewrite bool_decide_eq_false_2 by done.
    rewrite IH; rewrite <- app_assoc; done.
Qed.

(** Re-building a set from an array without repetitions keeps it. *)
Lemma Set_from_NoDup (l : list Z) : NoDup l -> Set_from l = l.
Proof. intros H. apply (Set_from_acc_NoDup l []). done. Qed.

Lemma slice_last_NoDup {A} (n : nat) (l : list A) : NoDup l -> NoDup (slice_last n l).
Proof.
  intros H. unfold slice_last.
  rewrite <- (take_drop (length l - n) l) in H.
  by apply NoDup_app in H as (_ & _ & H).
Qed.

Lemma slice_last_length {A} (n : nat) (l : list A) :
  (n <= length l)%nat -> length (slice_last n l) = n.
Proof. intros H. unfold slice_last. rewrite length_drop. lia. Qed.

(** *** De-duplication of URL lists *)

Lemma unique_elem (l seen : list string) (x : string) :
  x ∈ unique seen l <-> x ∈ l /\ x ∉ seen.
Proof.
  revert seen. induction l as [|y l IH]; intros seen; simpl.
  - split; [intros H | intros [H _]]; by apply not_elem_of_nil in H.
  - case_bool_decide as Hy.
    + rewrite IH, elem_of_cons. split.
      * intros [H Hn]. split; [by right | done].
      * intros [[->|H] Hn]; done.
    + rewrite elem_of_cons, IH, !elem_of_cons. split.
      * intros [->|[H Hn]]; [by split; [left|] |].
        split; [by right |]. intros Hs. apply Hn. by right.
      * intros [[->|H] Hn]; [by left|].
        destruct (decide (x = y)) as [->|Hxy]; [by left | right].
        split; [done|]. intros [->|Hs]; done.
Qed.

Lemma unique_NoDup (l seen : list string) : NoDup (unique seen l).
Proof.
  revert seen. induction l as [|y l IH]; intros seen; simpl.
  - apply NoDup_nil_2.
  - case_bool_decide; [apply IH|].
    apply NoDup_cons. split; [|apply IH].
    rewrite unique_elem. intros [_ Hn]. apply Hn. left.
Qed.

(** Every URL of the input survives de-duplication. *)
Lemma unique_complete (l : list string) (x : string) : x ∈ unique [] l <-> x ∈ l.
Proof.
  rewrite unique_elem. split; [by intros [H _]|].
  intros H. split; [done|]. apply not_elem_of_nil.
Qed.

End JSFacts.

(** ** The change detector *)

Module RealtimeFacts.
Import JS Net WordPress Realtime Spec Fixtures JSFacts.

(** *** The seen-set stays a set and stays small *)

Lemma detect_one_NoDup st a : NoDup st.2 -> NoDup (detect_one st a).2.
Proof.
  destruct st as [news ids]. unfold detect_one. simpl. intros H.
  destruct (Set_has ids (post_id a)) eqn:E; simpl; [done|].
  by apply Set_add_NoDup.
Qed.

Lemma foldl_detect_one_NoDup articles st :
  NoDup st.2 -> NoDup (foldl detect_one st articles).2.
Proof.
  revert st. induction articles as [|a l IH]; intros st H; simpl; [done|].
  apply IH. by apply detect_one_NoDup.
Qed.

Lemma detect_loop_NoDup ids articles :
  NoDup ids -> NoDup (detect_loop ids articles).2.
Proof. intros H. by apply foldl_detect_one_NoDup. Qed.

Lemma prune_length ids : (length (prune ids) <= 100)%nat.
Proof.
  unfold prune. destruct (100 <? length ids)%nat eqn:E.
  - pose proof (Set_from_length (slice_last 50 ids)) as H.
    unfold slice_last in *. rewrite length_drop in H.
    apply Nat.ltb_lt in E. lia.
  - apply Nat.ltb_ge in E. lia.
Qed.

Lemma prune_NoDup ids : NoDup ids -> NoDup (prune ids).
Proof.
  intros H. unfold prune. destruct (100 <? length ids)%nat; [|done].
  rewrite Set_from_NoDup; by apply slice_last_NoDup.
Qed.

Lemma prune_over ids :
  NoDup ids -> (100 < length ids)%nat ->
  prune ids = slice_last 50 ids /\ length (prune ids) = 50%nat.
Proof.
  intros Hnd Hlen. unfold prune.
  rewrite (proj2 (Nat.ltb_lt _ _) Hlen).
  rewrite Set_from_NoDup by by apply slice_last_NoDup.
  split; [done|]. apply slice_last_length. lia.
Qed.

Lemma prune_under ids : (length ids <= 100)%nat -> prune ids = ids.
Proof. intros H. unfold prune. by rewrite (proj2 (Nat.ltb_ge _ _) H). Qed.

Lemma detectNewArticles_ids this articles :
  lastArticleIds (detectNewArticles this articles).2 =
  prune (detect_loop (lastArticleIds this) articles).2.
Proof.
  unfold detectNewArticles.
  by destruct (detect_loop (lastArticleIds this) articles) as [news ids].
Qed.

Lemma detectNewArticles_ok this articles :
  NoDup (lastArticleIds this) ->
  seen_ok (lastArticleIds (detectNewArticles this articles).2).
Proof.
  intros H. rewrite detectNewArticles_ids. split.
  - by apply prune_NoDup, detect_loop_NoDup.
  - apply prune_length.
Qed.

Lemma seen_ok_nil : seen_ok [].
Proof. split; [apply NoDup_nil_2 | simpl; lia]. Qed.

Section Clock.
Variable Date_parse : string -> option Z.
Variable toISOString : Z -> string.

Local Abbreviation step := (step Date_parse toISOString).
Local Abbreviation run := (run Date_parse toISOString).
Local Abbreviation boot := (boot toISOString).

Lemma pollForUpdates_svc w : svc (pollForUpdates w) = svc w.
Proof. unfold pollForUpdates. by destruct (negb _). Qed.

(** Whatever happens next, the seen-set is left alone, emptied, or
    goes through one detection step. *)
Lemma step_seen w e w' :
  step w e = Some w' ->
  lastArticleIds (svc w') = lastArticleIds (svc w) \/
  lastArticleIds (svc w') = [] \/
  exists articles,
    lastArticleIds (svc w') =
    lastArticleIds (detectNewArticles (svc w) articles).2.
Proof.
  destruct e as [| |s|cb|cb|now fetched|now|now fetched|i]; simpl; intros H.
  - injection H as <-. left. unfold startPolling.
    destruct (isPolling (svc w)); [done|]. by rewrite pollForUpdates_svc.
  - injection H as <-. by left.
  - injection H as <-. by left.
  - injection H as <-. by left.
  - injection H as <-. by left.
  - injection H as <-. destruct fetched as [m|articles]; simpl; [by left|].
    right. right. exists articles.
    by destruct (detectNewArticles (svc w) articles).
  - injection H as <-. right. by left.
  - destruct (inflight w); [done|]. injection H as <-.
    unfold pollForUpdates_resume.
    destruct fetched as [m|articles]; simpl; [by left|].
    right. right. exists articles.
    by destruct (detectNewArticles (svc w) articles).
  - destruct (timers w !! i); [|done]. injection H as <-.
    left. by rewrite pollForUpdates_svc.
Qed.

Lemma step_seen_ok w e w' :
  step w e = Some w' ->
  seen_ok (lastArticleIds (svc w)) -> seen_ok (lastArticleIds (svc w')).
Proof.
  intros H Hok. destruct (step_seen _ _ _ H) as [-> | [-> | [articles ->]]].
  - done.
  - apply seen_ok_nil.
  - apply detectNewArticles_ok, Hok.
Qed.

Lemma run_seen_ok es w w' :
  run w es = Some w' ->
  seen_ok (lastArticleIds (svc w)) -> seen_ok (lastArticleIds (svc w')).
Proof.
  revert w. induction es as [|e es IH]; intros w H Hok; simpl in H.
  - by injection H as <-.
  - destruct (step w e) as [w1|] eqn:E; [|done].
    apply (IH w1 H). by apply (step_seen_ok w e).
Qed.

(** C3. After every detection step, whether a poll cycle or the manual
    [checkForUpdates] ran it, the seen-set holds at most 100
    identifiers: this holds in every state the service can reach.  A
    detection step whose insertions bring the set past 100 leaves
    exactly the 50 identifiers inserted last, in insertion order; a step
    that stays within 100 drops nothing.  In particular the 101st
    identifier, inserted alone, leaves the last 49 of the previous 100
    followed by itself. *)
Theorem seen_set_bounded :
  (forall now es w,
      run (boot now) es = Some w ->
      (length (lastArticleIds (svc w)) <= 100)%nat) /\
  (forall now es w articles,
      run (boot now) es = Some w ->
      let inserted := (detect_loop (lastArticleIds (svc w)) articles).2 in
      let after := lastArticleIds (detectNewArticles (svc w) articles).2 in
      ((100 < length inserted)%nat ->
         after = slice_last 50 inserted /\ length after = 50%nat) /\
      ((length inserted <= 100)%nat -> after = inserted)) /\
  (forall now es w a,
      run (boot now) es = Some w ->
      length (lastArticleIds (svc w)) = 100%nat ->
      post_id a ∉ lastArticleIds (svc w) ->
      lastArticleIds (detectNewArticles (svc w) [a]).2 =
      drop 51 (lastArticleIds (svc w)) ++ [post_id a]).
Proof.
  assert (Hreach : forall now es w,
             run (boot now) es = Some w -> seen_ok (lastArticleIds (svc w))).
  { intros now es w H. apply (run_seen_ok es _ _ H). apply seen_ok_nil. }
  split_and!.
  - intros now es w H. apply (Hreach now es w H).
  - intros now es w articles H inserted after.
    destruct (Hreach now es w H) as [Hnd _].
    subst after. rewrite detectNewArticles_ids. fold inserted. split.
    + intros Hlen. apply prune_over; [|done]. by apply detect_loop_NoDup.
    + apply prune_under.
  - intros now es w a H Hlen Hnew.
    destruct (Hreach now es w H) as [Hnd _].
    rewrite detectNewArticles_ids. unfold detect_loop. simpl.
    unfold Set_add, Set_has. rewrite bool_decide_eq_false_2 by done. simpl.
    set (ids := lastArticleIds (svc w)) in *.
    assert (Hnd' : NoDup (ids ++ [post_id a])).
    { apply NoDup_app. split_and!; [done | | apply NoDup_singleton].
      intros y Hy Hy'. apply list_elem_of_singleton in Hy'. by subst. }
    destruct (prune_over (ids ++ [post_id a]) Hnd') as [-> _].
    { rewrite length_app. simpl. lia. }
    unfold slice_last. rewrite length_app, Hlen. simpl.
    rewrite drop_app_le by lia. done.
Qed.
End Clock.


Lemma full_world_reached :
  run clock_read clock_text (boot clock_text 0) five_checks = Some full_world.
Proof. vm_compute. reflexivity. Defined.

(** After a hundred identifiers, the set is full; the next one alone
    leaves 52, ..., 101, and a batch of twenty leaves 71, ..., 120. *)
Lemma seen_set_bounded_witness :
  (length (lastArticleIds (svc full_world)) <= 100)%nat /\
  (let inserted := (detect_loop (lastArticleIds (svc full_world)) (numbered 101 20)).2 in
   let after := lastArticleIds (detectNewArticles (svc full_world) (numbered 101 20)).2 in
   after = slice_last 50 inserted /\ length after = 50%nat) /\
  lastArticleIds
    (detectNewArticles (svc full_world)
       [{| post_id := 101; post_date := ""; post_title := ""; post_content := "" |}]).2 =
  drop 51 (lastArticleIds (svc full_world)) ++ [101].
Proof.
  pose proof (seen_set_bounded clock_read clock_text) as (H1 & H2 & H3).
  split_and!.
  - exact (H1 0 five_checks full_world full_world_reached).
  - refine (proj1 (H2 0 five_checks full_world (numbered 101 20) full_world_reached) _).
    vm_compute. lia.
  - refine (H3 0 five_checks full_world _ full_world_reached _ _).
    + vm_compute. reflexivity.
    + apply (bool_decide_unpack _). vm_compute. exact I.
Defined.

End RealtimeFacts.

(** ** Classification of a new item *)

Module ClassifierFacts.
Import JS Net WordPress Realtime Spec Fixtures JSFacts.

Local Arguments String.append !_ _ / : simpl nomatch.

(** Searching the lower-cased text is searching whatever the case. *)
Lemma includes_toLowerCase (s kw : string) :
  includes (toLowerCase s) kw = true <-> contains_ci s kw.
Proof.
  rewrite includes_spec. split.
  - intros (pre & post & H).
    destruct (toLowerCase_split _ _ _ H) as (s1 & s2 & -> & H1 & H2).
    destruct (toLowerCase_split _ _ _ H2) as (m & p & -> & Hm & Hp).
    by exists s1, m, p.
  - intros (pre & mid & post & -> & Hm).
    exists (toLowerCase pre), (toLowerCase post).
    by rewrite !toLowerCase_app, Hm.
Qed.

(** The test of lines 90-91 decides [has_keyword]. *)
Lemma has_keyword_spec (a : WordPressPost) :
  includes (toLowerCase (post_title a)) "breaking" ||
  includes (toLowerCase (post_title a)) "urgent" ||
  includes (toLowerCase (post_content a)) "breaking" ||
  includes (toLowerCase (post_content a)) "urgent" = true <-> has_keyword a.
Proof.
  unfold has_keyword. rewrite !orb_true_iff, !includes_toLowerCase. tauto.
Qed.

Section Clock.
Variable Date_parse : string -> option Z.

Local Abbreviation determineUpdateType := (determineUpdateType Date_parse).

Lemma determineUpdateType_keyword now a :
  has_keyword a -> determineUpdateType now a = breaking_news.
Proof.
  intros H. apply has_keyword_spec in H. unfold Realtime.determineUpdateType.
  by rewrite H.
Qed.

Lemma determineUpdateType_plain now a :
  ~ has_keyword a ->
  determineUpdateType now a =
  match Date_parse (post_date a) with
  | Some t => if now - 3600000 <? t then new_article else updated_article
  | None => updated_article
  end.
Proof.
  intros H. unfold Realtime.determineUpdateType.
  destruct (_ || _) eqn:E; [|done].
  exfalso. by apply H, has_keyword_spec.
Qed.

Lemma has_keyword_dec a : has_keyword a \/ ~ has_keyword a.
Proof.
  rewrite <- has_keyword_spec. destruct (_ || _); [by left | by right].
Qed.

(** C4. [determineUpdateType] returns [breaking_news] exactly when the
    title or the body contains "breaking" or "urgent" in any case of the
    letters; otherwise [new_article] exactly when the publish timestamp is
    a date later than one hour before the current time, with no bound on
    the other side: a date ahead of the clock is a [new_article] too;
    otherwise [updated_article].  For a date that is not ahead of the clock
    the test is "within the last hour".  So a title containing "BREAKING"
    gives [breaking_news] at any timestamp, an item without keywords
    published two hours ago is an [updated_article], and one published ten
    minutes ago is a [new_article]. *)
Theorem determineUpdateType_spec (now : Z) (a : WordPressPost) :
  (determineUpdateType now a = breaking_news <-> has_keyword a) /\
  (determineUpdateType now a = new_article <->
     ~ has_keyword a /\ since_hour_ago (Date_parse (post_date a)) now) /\
  (determineUpdateType now a = updated_article <->
     ~ has_keyword a /\ ~ since_hour_ago (Date_parse (post_date a)) now) /\
  (forall t, Date_parse (post_date a) = Some t -> t <= now ->
     (since_hour_ago (Date_parse (post_date a)) now <->
      within_last_hour (Date_parse (post_date a)) now)) /\
  (forall t, Date_parse (post_date a) = Some t -> now < t ->
     ~ within_last_hour (Date_parse (post_date a)) now /\
     (~ has_keyword a -> determineUpdateType now a = new_article)) /\
  (forall pre post,
      post_title a = pre +:+ "BREAKING" +:+ post ->
      determineUpdateType now a = breaking_news) /\
  (~ has_keyword a ->
     Date_parse (post_date a) = Some (now - 2 * 60 * 60 * 1000) ->
     determineUpdateType now a = updated_article) /\
  (~ has_keyword a ->
     Date_parse (post_date a) = Some (now - 10 * 60 * 1000) ->
     determineUpdateType now a = new_article).
Proof.
  assert (Hplain := determineUpdateType_plain now a).
  assert (Hkw := determineUpdateType_keyword now a).
  unfold since_hour_ago, within_last_hour. split_and!.
  - split; [|done]. intros H.
    destruct (has_keyword_dec a) as [|Hn]; [done|].
    rewrite (Hplain Hn) in H.
    destruct (Date_parse (post_date a)); [destruct (_ <? _)|]; done.
  - split.
    + intros H. destruct (has_keyword_dec a) as [Hk|Hn].
      { by rewrite (Hkw Hk) in H. }
      split; [done|]. rewrite (Hplain Hn) in H.
      destruct (Date_parse (post_date a)) as [t|]; [|done].
      destruct (now - 3600000 <? t) eqn:E; [|done].
      exists t. split; [done|]. by apply Z.ltb_lt.
    + intros [Hn (t & Ht & Hlt)]. rewrite (Hplain Hn), Ht.
      by rewrite (proj2 (Z.ltb_lt _ _) Hlt).
  - split.
    + intros H. destruct (has_keyword_dec a) as [Hk|Hn].
      { by rewrite (Hkw Hk) in H. }
      split; [done|]. rewrite (Hplain Hn) in H.
      intros (t & Ht & Hlt). rewrite Ht in H.
      by rewrite (proj2 (Z.ltb_lt _ _) Hlt) in H.
    + intros [Hn Hout]. rewrite (Hplain Hn).
      destruct (Date_parse (post_date a)) as [t|]; [|done].
      destruct (now - 3600000 <? t) eqn:E; [|done].
      exfalso. apply Hout. exists t. split; [done|]. by apply Z.ltb_lt.
  - intros t Ht Hle. rewrite Ht. split.
    + intros (t' & [= <-] & Hlt). by exists t.
    + intros (t' & E & Hlt & _). by exists t'.
  - intros t Ht Hlt. rewrite Ht. split.
    + intros (t' & [= <-] & _ & Hle). lia.
    + intros Hn. rewrite (Hplain Hn), Ht.
      by rewrite (proj2 (Z.ltb_lt _ _)) by lia.
  - intros pre post Ht. apply Hkw. left. by exists pre, "BREAKING", post.
  - intros Hn Ht. rewrite (Hplain Hn), Ht.
    by rewrite (proj2 (Z.ltb_ge _ _)) by lia.
  - intros Hn Ht. rewrite (Hplain Hn), Ht.
    by rewrite (proj2 (Z.ltb_lt _ _)) by lia.
Qed.
End Clock.


Lemma local_news_plain : ~ has_keyword local_news.
Proof. intros H. apply has_keyword_spec in H. vm_compute in H. discriminate H. Defined.

(** With the sample clock reading every date as 1714564800000: a title
    with "BREAKING" is breaking news; a plain item is an update two hours
    later, a new article ten minutes later, and a new article a day
    earlier, when its date lies ahead. *)
Lemma determineUpdateType_spec_witness :
  determineUpdateType clock_read 0 breaking_story = breaking_news /\
  determineUpdateType clock_read (1714564800000 + 7200000) local_news = updated_article /\
  determineUpdateType clock_read (1714564800000 + 600000) local_news = new_article /\
  determineUpdateType clock_read (1714564800000 - 86400000) local_news = new_article.
Proof.
  split_and!.
  - refine (proj1 (proj2 (proj2 (proj2 (proj2 (proj2
      (determineUpdateType_spec clock_read 0 breaking_story))))))
      "" ": highway closed" _).
    reflexivity.
  - refine (proj1 (proj2 (proj2 (proj2 (proj2 (proj2 (proj2
      (determineUpdateType_spec clock_read (1714564800000 + 7200000) local_news)))))))
      _ _).
    + exact local_news_plain.
    + reflexivity.
  - refine (proj2 (proj2 (proj2 (proj2 (proj2 (proj2 (proj2
      (determineUpdateType_spec clock_read (1714564800000 + 600000) local_news)))))))
      _ _).
    + exact local_news_plain.
    + reflexivity.
  - refine (proj2 (proj1 (proj2 (proj2 (proj2 (proj2
      (determineUpdateType_spec clock_read (1714564800000 - 86400000) local_news)))))
      1714564800000 _ _) _).
    + reflexivity.
    + lia.
    + exact local_news_plain.
Defined.

(** An item without keywords whose date lies a day ahead of the clock is
    classified [new_article], although its date is not within the last
    hour: "[new_article] exactly when published within the last hour"
    fails for it. *)
Lemma future_date_is_new_article :
  ~ has_keyword local_news /\
  determineUpdateType clock_read (1714564800000 - 86400000) local_news = new_article /\
  ~ within_last_hour (clock_read (post_date local_news)) (1714564800000 - 86400000) /\
  ~ (determineUpdateType clock_read (1714564800000 - 86400000) local_news = new_article <->
     ~ has_keyword local_news /\
     within_last_hour (clock_read (post_date local_news)) (1714564800000 - 86400000)).
Proof.
  assert (Hout : ~ within_last_hour (clock_read (post_date local_news))
                     (1714564800000 - 86400000)).
  { intros (t & [= <-] & _ & Hle). lia. }
  assert (Hnew : determineUpdateType clock_read (1714564800000 - 86400000) local_news
                 = new_article).
  { by vm_compute. }
  split_and!; [exact local_news_plain | done | done |].
  intros [H _]. by destruct (H Hnew).
Qed.

End ClassifierFacts.

(** ** Starting and stopping the poller *)

Module PollerFacts.
Import JS Net WordPress Realtime.

Section Clock.
Variable Date_parse : string -> option Z.
Variable toISOString : Z -> string.

Local Abbreviation step := (step Date_parse toISOString).
Local Abbreviation run := (run Date_parse toISOString).
Local Abbreviation boot := (boot toISOString).
Local Abbreviation pollForUpdates_resume := (pollForUpdates_resume Date_parse toISOString).

(** [startPolling()] while polling changes nothing and starts nothing. *)
Lemma startPolling_while_polling w :
  isPolling (svc w) = true -> startPolling w = w.
Proof. intros H. unfold startPolling. by rewrite H. Qed.

Lemma startPolling_isPolling w : isPolling (svc (startPolling w)) = true.
Proof.
  unfold startPolling. destruct (isPolling (svc w)) eqn:E; [done|].
  unfold pollForUpdates. by simpl.
Qed.

Lemma startPolling_twice w : startPolling (startPolling w) = startPolling w.
Proof. apply startPolling_while_polling, startPolling_isPolling. Qed.

(** [stopPolling()] clears the flag and nothing else: the pending timer
    and the request in flight stay. *)
Lemma stopPolling_keeps_pending w :
  isPolling (svc (stopPolling w)) = false /\
  timers (stopPolling w) = timers w /\
  inflight (stopPolling w) = inflight w.
Proof. done. Qed.

(** A timer that fires while the flag is still cleared ends its chain. *)
Lemma timer_fires_while_stopped w i w' :
  isPolling (svc w) = false ->
  step w (TimerFires i) = Some w' ->
  S (chains w') = chains w /\ inflight w' = inflight w.
Proof.
  intros Hstop H. simpl in H.
  destruct (timers w !! i) as [d|] eqn:E; [|done]. injection H as <-.
  unfold pollForUpdates. simpl. rewrite Hstop. simpl. unfold chains. simpl.
  rewrite length_delete by (by rewrite E). apply lookup_lt_Some in E. lia.
Qed.

Lemma resume_counts now fetched w :
  inflight (pollForUpdates_resume now fetched w) = pred (inflight w) /\
  length (timers (pollForUpdates_resume now fetched w)) = S (length (timers w)) /\
  isPolling (svc (pollForUpdates_resume now fetched w)) = isPolling (svc w).
Proof.
  unfold Realtime.pollForUpdates_resume.
  destruct fetched as [m|articles].
  - simpl. rewrite length_app. simpl. split_and!; [done | lia | done].
  - unfold detectNewArticles.
    destruct (detect_loop (lastArticleIds (svc w)) articles) as [news ids].
    simpl. rewrite length_app. simpl. split_and!; [done | lia | done].
Qed.

(** C2, at the failing schedules.  [stopPolling()] followed at once by
    [startPolling()] while a poll is awaiting its posts leaves two polls
    in flight; the same two calls made while the next poll is waiting
    for its timer leave two chains alive, and when that timer fires two
    polls are in flight at once. *)
Theorem stop_start_duplicates_poll_chain (now : Z) (fetched : Result (list WordPressPost)) :
  (exists w,
      run (boot now) [CallStartPolling; CallStopPolling; CallStartPolling] = Some w /\
      isPolling (svc w) = true /\ inflight w = 2%nat) /\
  (exists w w',
      run (boot now) [CallStartPolling; PostsSettle now fetched;
                      CallStopPolling; CallStartPolling] = Some w /\
      isPolling (svc w) = true /\ chains w = 2%nat /\
      step w (TimerFires 0) = Some w' /\ inflight w' = 2%nat).
Proof.
  split.
  - eexists. split; [reflexivity|]. done.
  - set (w1 := pollForUpdates_resume now fetched (startPolling (boot now))).
    destruct (resume_counts now fetched (startPolling (boot now)))
      as (Hin & Hti & Hpo).
    fold w1 in Hin, Hti, Hpo. simpl in Hin, Hti, Hpo.
    destruct (timers w1) as [|d [|d' l]] eqn:Et; simpl in Hti; try lia.
    exists (startPolling (stopPolling w1)).
    exists (pollForUpdates
              {| svc := svc (startPolling (stopPolling w1));
                 inflight := inflight (startPolling (stopPolling w1));
                 timers := []; delivered := delivered (startPolling (stopPolling w1)) |}).
    split_and!.
    + done.
    + apply startPolling_isPolling.
    + unfold chains, startPolling, stopPolling, pollForUpdates. simpl.
      rewrite Hin, Et. done.
    + simpl. by rewrite Et.
    + unfold pollForUpdates, startPolling, stopPolling. simpl. by rewrite Hin.
Qed.
End Clock.

End PollerFacts.

(** ** Subscriptions *)

Module SubscriptionFacts.
Import Realtime Fixtures.

Lemma set_subscribers_same this : set_subscribers (subscribers this) this = this.
Proof. by destruct this. Qed.

Lemma remove_first_absent cb l : cb ∉ l -> remove_first cb l = l.
Proof.
  induction l as [|x l IH]; simpl; [done|]. intros H.
  apply not_elem_of_cons in H as [Hne H].
  destruct (decide (x = cb)) as [->|_]; [done|]. by rewrite IH.
Qed.

(** The earliest registration of the function is the one that goes. *)
Lemma remove_first_earliest cb pre post :
  cb ∉ pre -> remove_first cb (pre ++ cb :: post) = pre ++ post.
Proof.
  induction pre as [|x pre IH]; simpl; intros H.
  - by destruct (decide (cb = cb)).
  - apply not_elem_of_cons in H as [Hne H].
    destruct (decide (x = cb)) as [->|_]; [done|]. by rewrite IH.
Qed.

Lemma remove_first_others cb l :
  filter (fun x => x <> cb) (remove_first cb l) = filter (fun x => x <> cb) l.
Proof.
  induction l as [|x l IH]; simpl; [done|].
  destruct (decide (x = cb)) as [->|Hne].
  - by rewrite filter_cons_False by (intros H; by apply H).
  - by rewrite !filter_cons_True, IH by done.
Qed.

Lemma remove_first_length cb l :
  (length l <= S (length (remove_first cb l)))%nat.
Proof.
  induction l as [|x l IH]; simpl; [lia|].
  destruct (decide (x = cb)); simpl; lia.
Qed.

(** C10, as the code has it.  A subscription is known by its callback
    function only.  Calling an unsubscribe function removes the earliest
    registration of its function that is still there, and nothing when
    there is none; it never touches a registration of another function,
    and removes at most one registration per call.  For a function that
    no other subscription registers, it therefore removes exactly its own
    registration, and calling it again changes nothing. *)
Theorem unsubscribe_spec (this : RealtimeService) (cb : Callback) :
  (forall pre post,
      subscribers this = pre ++ cb :: post -> cb ∉ pre ->
      subscribers (unsubscribe cb this) = pre ++ post) /\
  (cb ∉ subscribers this -> unsubscribe cb this = this) /\
  filter (fun x => x <> cb) (subscribers (unsubscribe cb this)) =
    filter (fun x => x <> cb) (subscribers this) /\
  (length (subscribers this) <= S (length (subscribers (unsubscribe cb this))))%nat /\
  (cb ∉ subscribers this ->
     unsubscribe cb (subscribe cb this) = this /\
     unsubscribe cb (unsubscribe cb (subscribe cb this)) =
       unsubscribe cb (subscribe cb this)).
Proof.
  assert (Habs : cb ∉ subscribers this -> unsubscribe cb this = this).
  { intros H. unfold unsubscribe. rewrite remove_first_absent by done.
    apply set_subscribers_same. }
  assert (Hsub : cb ∉ subscribers this -> unsubscribe cb (subscribe cb this) = this).
  { intros H. unfold unsubscribe, subscribe. simpl.
    rewrite remove_first_earliest by done. rewrite app_nil_r.
    by destruct this. }
  split_and!.
  - intros pre post Hs Hpre. unfold unsubscribe. simpl.
    rewrite Hs. by apply remove_first_earliest.
  - done.
  - apply remove_first_others.
  - apply remove_first_length.
  - intros H. split; [by apply Hsub|]. rewrite (Hsub H). by apply Habs.
Qed.


Lemma unsubscribe_spec_witness :
  unsubscribe 7%nat (subscribe 7%nat (subscribe 5%nat (new_RealtimeService clock_text 0))) =
    subscribe 5%nat (new_RealtimeService clock_text 0) /\
  unsubscribe 7%nat (unsubscribe 7%nat (subscribe 7%nat (subscribe 5%nat (new_RealtimeService clock_text 0)))) =
    unsubscribe 7%nat (subscribe 7%nat (subscribe 5%nat (new_RealtimeService clock_text 0))).
Proof.
  refine (proj2 (proj2 (proj2 (proj2
    (unsubscribe_spec (subscribe 5%nat (new_RealtimeService clock_text 0)) 7%nat)))) _).
  vm_compute. intros H. inversion H as [|? ? ? H']. inversion H'.
Defined.

(** The function 7 is subscribed, then 5, then 7 again.  The unsubscribe
    function of the last subscription removes the first one, which moves
    7 behind 5 in the delivery order; called a second time it removes the
    remaining registration of 7 as well. *)
Lemma unsubscribe_takes_another_registration :
  let this := subscribe 7%nat (subscribe 5%nat (subscribe 7%nat (new_RealtimeService clock_text 0))) in
  subscribers this = [7%nat; 5%nat; 7%nat] /\
  subscribers (unsubscribe 7%nat this) = [5%nat; 7%nat] /\
  subscribers (unsubscribe 7%nat (unsubscribe 7%nat this)) = [5%nat] /\
  unsubscribe 7%nat (unsubscribe 7%nat this) <> unsubscribe 7%nat this.
Proof. split_and!; [reflexivity | reflexivity | reflexivity | discriminate]. Qed.

End SubscriptionFacts.

(** ** The result cache *)

Module ArchiveFacts.
Import JS Net WordPress Archive Spec Fixtures.

(** A call that finds its entry answers from the cache and the running
    total, and asks the network nothing. *)
Lemma getStories_hit (net : Fetch) this options cached :
  cachedStories this !! cacheKey options = Some cached ->
  getStories net this options =
  (this,
   {| stories := cached; total := totalStories this;
      hasMore := lt (length_num cached) (totalStories this) |},
   []).
Proof. intros H. unfold getStories. by rewrite H. Qed.

(** A call of [getStories] that runs from its start to its end with
    nothing in between neither drops nor replaces an entry. *)
Lemma getStories_keeps_entry (net : Fetch) this options key cached :
  cachedStories this !! key = Some cached ->
  cachedStories (getStories net this options).1.1 !! key = Some cached.
Proof.
  intros H. unfold getStories.
  destruct (cachedStories this !! cacheKey options) as [c|] eqn:E; [done|].
  destruct (net (request options)) as [m|ok st tot body]; [done|].
  destruct ok; [|done]. destruct body as [m|fetched]; [done|]. simpl.
  rewrite lookup_insert_ne; [done|]. intros Heq. rewrite Heq in E. congruence.
Qed.

Lemma getStories_each_keeps_entry calls this key cached :
  cachedStories this !! key = Some cached ->
  cachedStories (getStories_each this calls) !! key = Some cached.
Proof.
  revert this. induction calls as [|[net o] calls IH]; intros this H; [done|].
  apply IH. by apply getStories_keeps_entry.
Qed.

(** What a call returns is what its entry holds afterwards, when there
    is one. *)
Lemma getStories_entry (net : Fetch) this options :
  is_Some (cachedStories (getStories net this options).1.1 !! cacheKey options) ->
  cachedStories (getStories net this options).1.1 !! cacheKey options =
    Some (stories (getStories net this options).1.2) /\
  total (getStories net this options).1.2 =
    totalStories (getStories net this options).1.1.
Proof.
  unfold getStories.
  destruct (cachedStories this !! cacheKey options) as [c|] eqn:E; [done|].
  destruct (net (request options)) as [m|ok st tot body]; simpl.
  { rewrite E. by intros [? ?]. }
  destruct ok; simpl; [|rewrite E; by intros [? ?]].
  destruct body as [m|fetched]; simpl; [rewrite E; by intros [? ?]|].
  intros _. by rewrite lookup_insert_eq.
Qed.

(** Calls that run one after the other, each completed before the next
    begins: once a call has left an entry for its filter, every later call
    with an equal filter asks the network nothing and returns the stored
    items, with the running total of the service at the time of the hit. *)
Lemma sequential_cache_hit (net1 net2 : Fetch) this options calls :
  let first := getStories net1 this options in
  is_Some (cachedStories first.1.1 !! cacheKey options) ->
  let this2 := getStories_each first.1.1 calls in
  total first.1.2 = totalStories first.1.1 /\
  getStories net2 this2 options =
  (this2,
   {| stories := stories first.1.2; total := totalStories this2;
      hasMore := lt (length_num (stories first.1.2)) (totalStories this2) |},
   []).
Proof.
  intros first Hsome this2.
  destruct (getStories_entry net1 this options Hsome) as [Hentry Htotal].
  split; [done|]. apply getStories_hit.
  by apply getStories_each_keeps_entry.
Qed.


(** The entry for "local" is filled when the server reports 100 stories;
    a fetch for "sports" then reports 1; the hit for "local" returns the
    stored two items with total 1 and [hasMore] false. *)
Lemma cache_hit_total_changes :
  let first := getStories (answers "100" [local_news; local_more])
                 new_ArchiveService (in_category "local") in
  let other := getStories (answers "1" [sports_news]) first.1.1 (in_category "sports") in
  let again := getStories (answers "100" [local_news; local_more])
                 other.1.1 (in_category "local") in
  again.2 = [] /\
  stories again.1.2 = stories first.1.2 /\
  total first.1.2 = Num 100 /\ hasMore first.1.2 = true /\
  total again.1.2 = Num 1 /\ hasMore again.1.2 = false /\
  total again.1.2 <> total first.1.2 /\ hasMore again.1.2 <> hasMore first.1.2.
Proof. vm_compute. split_and!; done. Qed.

(** C7, at the failing input.  The filters (category "feel", search
    "good-news") and (category "feel-good", search "news") differ and ask
    for different requests, yet have the same cache key; once the first is
    cached, [getStories] answers the second with the stories of the first
    and asks the network nothing. *)
Theorem cacheKey_collision :
  searching "feel" "good-news" <> searching "feel-good" "news" /\
  request (searching "feel" "good-news") <> request (searching "feel-good" "news") /\
  cacheKey (searching "feel" "good-news") = cacheKey (searching "feel-good" "news") /\
  let first := getStories (answers "2" [local_news; local_more])
                 new_ArchiveService (searching "feel" "good-news") in
  let second := getStories (answers "1" [sports_news])
                  first.1.1 (searching "feel-good" "news") in
  second.2 = [] /\ stories second.1.2 = [local_news; local_more].
Proof. split_and!; [done | done | by vm_compute | by vm_compute]. Qed.



End ArchiveFacts.

(** ** The result cache among overlapping calls *)

Module ArchiveLoopFacts.
Import JS Net WordPress Archive ArchiveLoop Spec Terms Fixtures Samples.

(** A call that nothing interrupts is [getStories]. *)
Lemma getStories_begin_settle (net : Fetch) this options :
  getStories net this options =
  match getStories_begin this options with
  | (this1, Hit result) => (this1, result, [])
  | (this1, Fetching key req) =>
      let '(this2, result) := getStories_settle this1 key (net req) in
      (this2, result, [req])
  end.
Proof.
  unfold getStories, getStories_begin, getStories_settle.
  destruct (cachedStories this !! cacheKey options); [done|]. simpl.
  destruct (net (request options)) as [m|ok st tot body]; [done|].
  destruct ok; [|done]. by destruct body.
Qed.

(** The beginning of a call leaves the cache and the running total. *)
Lemma getStories_begin_state this options :
  cachedStories (getStories_begin this options).1 = cachedStories this /\
  totalStories (getStories_begin this options).1 = totalStories this.
Proof.
  unfold getStories_begin. by destruct (cachedStories this !! cacheKey options).
Qed.

(** What the end of a call writes. *)
Lemma getStories_settle_state this key o :
  cachedStories (getStories_settle this key o).1 =
    match fetched_items o with
    | Some fetched => <[key := fetched]> (cachedStories this)
    | None => cachedStories this
    end /\
  totalStories (getStories_settle this key o).1 =
    default (totalStories this) (fetched_total o).
Proof.
  unfold getStories_settle. destruct o as [m|ok st tot body]; [done|].
  destruct ok; [|done]. by destruct body.
Qed.

Lemma getStories_settle_result this key o :
  (getStories_settle this key o).2 =
    match fetched_items o, fetched_total o with
    | Some fetched, Some t =>
        {| stories := fetched; total := t; hasMore := lt (length_num fetched) t |}
    | _, _ => empty_result
    end.
Proof.
  unfold getStories_settle. destruct o as [m|ok st tot body]; [done|].
  destruct ok; [|done]. by destruct body.
Qed.

Lemma step_state l e l' effect :
  step l e = Some (l', effect) ->
  match e with
  | CallGetStories options =>
      cachedStories (service l') = cachedStories (service l) /\
      totalStories (service l') = totalStories (service l)
  | FetchSettles i o =>
      exists key req, pending l !! i = Some (key, req) /\
        pending l' = delete i (pending l) /\
        cachedStories (service l') =
          match fetched_items o with
          | Some fetched => <[key := fetched]> (cachedStories (service l))
          | None => cachedStories (service l)
          end /\
        totalStories (service l') = default (totalStories (service l)) (fetched_total o)
  | CallClearCache =>
      cachedStories (service l') = ∅ /\ totalStories (service l') = Num 0
  end.
Proof.
  destruct e as [options|i o|]; simpl.
  - pose proof (getStories_begin_state (service l) options) as H.
    destruct (getStories_begin (service l) options) as [this [r|k q]];
      by intros [= <- _].
  - destruct (pending l !! i) as [[key req]|]; [|done].
    pose proof (getStories_settle_state (service l) key o) as H.
    destruct (getStories_settle (service l) key o) as [this r].
    intros [= <- _]. by exists key, req.
  - by intros [= <- _].
Qed.

(** The calls that wait, after an event. *)
Lemma step_pending l e l' effect :
  step l e = Some (l', effect) ->
  match e with
  | CallGetStories options =>
      pending l' =
        match cachedStories (service l) !! cacheKey options with
        | Some _ => pending l
        | None => pending l ++ [(cacheKey options, request options)]
        end
  | FetchSettles i _ => pending l' = delete i (pending l)
  | CallClearCache => pending l' = pending l
  end.
Proof.
  destruct e as [options|i o|]; simpl.
  - unfold getStories_begin.
    destruct (cachedStories (service l) !! cacheKey options); by intros [= <- _].
  - destruct (pending l !! i) as [[key req]|]; [|done].
    destruct (getStories_settle (service l) key o). by intros [= <- _].
  - by intros [= <- _].
Qed.

(** No event but [clearCache] removes an entry. *)
Lemma step_keeps_entry l e l' effect key :
  step l e = Some (l', effect) -> e <> CallClearCache ->
  is_Some (cachedStories (service l) !! key) ->
  is_Some (cachedStories (service l') !! key).
Proof.
  intros Hstep Hne Hsome. pose proof (step_state _ _ _ _ Hstep) as H.
  destruct e as [options|i o|]; [| |done].
  - destruct H as [-> _]. done.
  - destruct H as (k & req & _ & _ & -> & _).
    destruct (fetched_items o); [|done].
    destruct (decide (k = key)) as [->|Hk].
    + rewrite lookup_insert_eq. by eexists.
    + by rewrite lookup_insert_ne.
Qed.

(** While no waiting call has the key of an entry, the entry stays as it
    is, and no call with this key comes to wait. *)
Lemma step_keeps_items l e l' effect key :
  step l e = Some (l', effect) -> e <> CallClearCache ->
  is_Some (cachedStories (service l) !! key) -> none_waiting key l ->
  cachedStories (service l') !! key = cachedStories (service l) !! key /\
  none_waiting key l'.
Proof.
  intros Hstep Hne Hsome Hquiet. unfold none_waiting in *.
  pose proof (step_state _ _ _ _ Hstep) as H.
  pose proof (step_pending _ _ _ _ Hstep) as Hp.
  destruct e as [options|i o|]; [| |done].
  - destruct H as [-> _]. split; [done|]. rewrite Hp.
    destruct (cachedStories (service l) !! cacheKey options) eqn:E; [done|].
    apply Forall_app. split; [done|]. apply Forall_singleton. simpl.
    intros Heq. rewrite Heq in E. rewrite E in Hsome. by destruct Hsome.
  - destruct H as (k & req & Hi & -> & -> & _). split.
    + destruct (fetched_items o); [|done].
      apply lookup_insert_ne. exact (Forall_lookup_1 _ _ _ _ Hquiet Hi).
    + by apply Forall_delete.
Qed.

Lemma step_running_total l e l' effect :
  step l e = Some (l', effect) ->
  totalStories (service l') = running_total [e] (totalStories (service l)).
Proof.
  intros Hstep. pose proof (step_state _ _ _ _ Hstep) as H.
  destruct e as [options|i o|]; simpl.
  - by destruct H.
  - by destruct H as (k & req & _ & _ & _ & ->).
  - by destruct H.
Qed.

Lemma run_cons l e es l' effects :
  run l (e :: es) = Some (l', effects) ->
  exists l1 effect effects', step l e = Some (l1, effect) /\
    run l1 es = Some (l', effects') /\ effects = effect :: effects'.
Proof.
  simpl. destruct (step l e) as [[l1 effect]|]; [|done].
  destruct (run l1 es) as [[l2 effects']|] eqn:E; [|done].
  intros [= -> <-]. by exists l1, effect, effects'.
Qed.

Lemma run_keeps_entry es : forall l l' effects key,
  run l es = Some (l', effects) -> CallClearCache ∉ es ->
  is_Some (cachedStories (service l) !! key) ->
  is_Some (cachedStories (service l') !! key).
Proof.
  induction es as [|e es IH]; intros l l' effects key Hrun Hno Hsome.
  - by injection Hrun as <- _.
  - apply run_cons in Hrun as (l1 & effect & effects' & Hstep & Hrun & _).
    apply not_elem_of_cons in Hno as [Hne Hno].
    eapply IH; [done | done |]. eapply step_keeps_entry; [done | done | done].
Qed.

Lemma run_keeps_items es : forall l l' effects key,
  run l es = Some (l', effects) -> CallClearCache ∉ es ->
  is_Some (cachedStories (service l) !! key) -> none_waiting key l ->
  cachedStories (service l') !! key = cachedStories (service l) !! key /\
  none_waiting key l'.
Proof.
  induction es as [|e es IH]; intros l l' effects key Hrun Hno Hsome Hquiet.
  - by injection Hrun as <- _.
  - apply run_cons in Hrun as (l1 & effect & effects' & Hstep & Hrun & _).
    apply not_elem_of_cons in Hno as [Hne Hno].
    destruct (step_keeps_items _ _ _ _ key Hstep) as [H1 H2]; [done..|].
    destruct (IH l1 l' effects' key) as [H3 H4]; [done | done | | done |].
    { by rewrite H1. }
    split; [by rewrite H3 | done].
Qed.

(** Once a key has an entry, a call with this key is answered from the
    cache, at whatever place among the events it comes. *)
Lemma run_hits es : forall l l' effects options j,
  run l es = Some (l', effects) -> CallClearCache ∉ es ->
  is_Some (cachedStories (service l) !! cacheKey options) ->
  es !! j = Some (CallGetStories options) ->
  exists result, effects !! j = Some (Resolves result).
Proof.
  induction es as [|e es IH]; intros l l' effects options j Hrun Hno Hsome Hj.
  - done.
  - apply run_cons in Hrun as (l1 & effect & effects' & Hstep & Hrun & ->).
    apply not_elem_of_cons in Hno as [Hne Hno].
    destruct j as [|j].
    + injection Hj as ->. simpl in Hstep. unfold getStories_begin in Hstep.
      destruct Hsome as [cached Hc]. rewrite Hc in Hstep.
      injection Hstep as _ <-. by eexists.
    + simpl in Hj. simpl. eapply IH; [done | done | | done].
      eapply step_keeps_entry; [done | done | done].
Qed.

Lemma run_running_total es : forall l l' effects,
  run l es = Some (l', effects) ->
  totalStories (service l') = running_total es (totalStories (service l)).
Proof.
  induction es as [|e es IH]; intros l l' effects Hrun.
  - by injection Hrun as <- _.
  - apply run_cons in Hrun as (l1 & effect & effects' & Hstep & Hrun & _).
    rewrite (IH _ _ _ Hrun). by rewrite (step_running_total _ _ _ _ Hstep).
Qed.

(** C1, as the code has it.  A call of [getStories] that finds an entry
    under the key of its filter asks the network nothing and returns the
    items the entry holds at that moment, with the running total of the
    service at that moment and [hasMore] computed from the two.  A call
    that finds none issues its request and waits; when its fetch succeeds,
    the items fetched are stored under the key, in place of what may have
    been stored there since, and the total of that fetch becomes the
    running total.  Until [clearCache], a key that has an entry keeps one
    and every call with it is answered from the cache; the items of the
    entry stay the same as long as no call with this key was waiting.  The
    running total is always the total of the fetch that succeeded last,
    for whatever filter, or zero after [clearCache] and at the start. *)
Theorem cache_hit_returns_current_entry (l : Loop) (options : ArchiveOptions) :
  (forall cached,
     cachedStories (service l) !! cacheKey options = Some cached ->
     step l (CallGetStories options) =
       Some (l, Resolves {| stories := cached; total := totalStories (service l);
                            hasMore := lt (length_num cached)
                                          (totalStories (service l)) |})) /\
  (cachedStories (service l) !! cacheKey options = None ->
     exists l', step l (CallGetStories options) = Some (l', Requests (request options)) /\
       pending l' = pending l ++ [(cacheKey options, request options)] /\
       cachedStories (service l') = cachedStories (service l) /\
       totalStories (service l') = totalStories (service l)) /\
  (forall i req o fetched t,
     pending l !! i = Some (cacheKey options, req) ->
     fetched_items o = Some fetched -> fetched_total o = Some t ->
     exists l', step l (FetchSettles i o) =
         Some (l', Resolves {| stories := fetched; total := t;
                               hasMore := lt (length_num fetched) t |}) /\
       cachedStories (service l') !! cacheKey options = Some fetched /\
       totalStories (service l') = t) /\
  (forall i req o,
     pending l !! i = Some (cacheKey options, req) -> fetched_items o = None ->
     exists l', step l (FetchSettles i o) = Some (l', Resolves empty_result) /\
       cachedStories (service l') = cachedStories (service l) /\
       totalStories (service l') = totalStories (service l)) /\
  (forall es l' effects,
     run l es = Some (l', effects) -> CallClearCache ∉ es ->
     is_Some (cachedStories (service l) !! cacheKey options) ->
     is_Some (cachedStories (service l') !! cacheKey options) /\
     (forall options' j,
        cacheKey options' = cacheKey options ->
        es !! j = Some (CallGetStories options') ->
        exists result, effects !! j = Some (Resolves result)) /\
     (none_waiting (cacheKey options) l ->
        cachedStories (service l') !! cacheKey options =
          cachedStories (service l) !! cacheKey options /\
        none_waiting (cacheKey options) l')) /\
  (forall es l' effects,
     run l es = Some (l', effects) ->
     totalStories (service l') = running_total es (totalStories (service l))) /\
  totalStories (service boot) = Num 0.
Proof.
  split_and!; [| | | | | | done].
  - intros cached Hc. simpl. unfold getStories_begin. rewrite Hc. by destruct l.
  - intros Hc. simpl. unfold getStories_begin. rewrite Hc. by eexists.
  - intros i req o fetched t Hi Hf Ht. simpl. rewrite Hi.
    pose proof (getStories_settle_state (service l) (cacheKey options) o) as [H1 H2].
    pose proof (getStories_settle_result (service l) (cacheKey options) o) as H3.
    destruct (getStories_settle (service l) (cacheKey options) o) as [this r].
    simpl in *. rewrite Hf, Ht in *. subst r. eexists. split; [done|]. simpl.
    rewrite H1, H2. by rewrite lookup_insert_eq.
  - intros i req o Hi Hf. simpl. rewrite Hi.
    pose proof (getStories_settle_state (service l) (cacheKey options) o) as [H1 H2].
    pose proof (getStories_settle_result (service l) (cacheKey options) o) as H3.
    destruct (getStories_settle (service l) (cacheKey options) o) as [this r].
    simpl in *. rewrite Hf in *. subst r. eexists. split; [done|]. simpl.
    split; [done|]. rewrite H2.
    destruct o as [m|ok st tot body]; [done|]. destruct ok; [|done].
    by destruct body.
  - intros es l' effects Hrun Hno Hsome. split_and!.
    + by eapply run_keeps_entry.
    + intros options' j Hkey Hj. eapply run_hits; [done | done | | done].
      by rewrite Hkey.
    + intros Hquiet. by eapply run_keeps_items.
  - intros es l' effects Hrun. by eapply run_running_total.
Qed.

(** With "local" cached and nothing waiting: a call for "sports" goes to
    the network, a call for "local" is answered from the cache with total
    100, the answer for "sports" sets the running total to 1, and the next
    call for "local" is answered with the same two stories and total 1. *)
Lemma cache_hit_returns_current_entry_witness :
  exists l' effects,
    run local_cached sports_traffic = Some (l', effects) /\
    is_Some (cachedStories (service l') !! cacheKey (in_category "local")) /\
    (exists result, effects !! 1%nat = Some (Resolves result)) /\
    (exists result, effects !! 3%nat = Some (Resolves result)) /\
    cachedStories (service l') !! cacheKey (in_category "local") =
      Some [local_news; local_more] /\
    totalStories (service l') = Num 1.
Proof.
  destruct (run local_cached sports_traffic) as [[l' effects]|] eqn:Hrun;
    [|vm_compute in Hrun; discriminate Hrun].
  pose proof (cache_hit_returns_current_entry local_cached (in_category "local"))
    as (_ & _ & _ & _ & Hkeep & Htotal & _).
  assert (Hno : CallClearCache ∉ sports_traffic).
  { unfold sports_traffic. rewrite !not_elem_of_cons.
    split_and!; try discriminate. apply not_elem_of_nil. }
  assert (Hsome : is_Some (cachedStories (service local_cached)
                             !! cacheKey (in_category "local"))).
  { exists [local_news; local_more]. vm_compute. reflexivity. }
  destruct (Hkeep sports_traffic l' effects Hrun Hno Hsome) as (H1 & H2 & H3).
  assert (Hquiet : none_waiting (cacheKey (in_category "local")) local_cached).
  { apply Forall_nil_2. }
  destruct (H3 Hquiet) as [H4 _].
  exists l', effects. split_and!.
  - reflexivity.
  - exact H1.
  - exact (H2 (in_category "local") 1%nat eq_refl eq_refl).
  - exact (H2 (in_category "local") 3%nat eq_refl eq_refl).
  - rewrite H4. vm_compute. reflexivity.
  - rewrite (Htotal sports_traffic l' effects Hrun). vm_compute. reflexivity.
Defined.

(** Two calls with equal filters that begin before either is answered both
    go to the network; the later answer replaces the stories the earlier
    one stored, so the two calls that are answered from the cache, one
    after each answer, return different stories. *)
Lemma overlapping_calls_replace_entry :
  snd <$> run boot overlapping =
  Some [ Requests (request (in_category "local"));
         Requests (request (in_category "local"));
         Resolves {| stories := [local_news; local_more]; total := Num 100;
                     hasMore := true |};
         Resolves {| stories := [local_news; local_more]; total := Num 100;
                     hasMore := true |};
         Resolves {| stories := [local_news]; total := Num 1; hasMore := false |};
         Resolves {| stories := [local_news]; total := Num 1; hasMore := false |} ].
Proof. by vm_compute. Qed.

End ArchiveLoopFacts.

(** ** The content source adapter *)

Module WordPressFacts.
Import JS Net WordPress Spec Fixtures.

Lemma truthy_nonempty (s : string) : s <> "" -> truthy s = true.
Proof. by destruct s. Qed.

Lemma getCategoryId_fails net slug :
  resolution_fails (categories_at net (WORDPRESS_API_URL +:+ "/categories?slug=" +:+ slug)) ->
  getCategoryId net slug = ([WORDPRESS_API_URL +:+ "/categories?slug=" +:+ slug], None).
Proof.
  unfold getCategoryId, resolution_fails, fetch_failed.
  destruct (categories_at net _) as [m|ok st tot body]; [done|].
  intros [[-> | Hbody] | (ok' & st' & tot' & H)].
  - done.
  - destruct body; [|done]. by destruct ok.
  - injection H as -> _ _ ->. by destruct ok'.
Qed.

(** The two branches of lines 91-104, for a non-empty category that is
    neither aggregate token: when [parseInt] reads an integer from it, that
    integer is the category id of the posts request and no lookup is made;
    when [parseInt] reads no number, the slug is looked up at the categories
    endpoint and the id found is used; and when the lookup fails (network
    error, non-OK response, undecodable or empty answer) the posts request
    is still issued, with no category constraint, and its answer is the
    result of [getPosts]. *)
Lemma category_resolution (net : Network) (perPage page : Z) (slug : string) :
  slug <> "" -> slug <> "featured-all" -> slug <> "sports-all" ->
  let base := WORDPRESS_API_URL +:+ "/posts?per_page=" +:+ show perPage
                +:+ "&page=" +:+ show page +:+ "&_embed" in
  let lookup := WORDPRESS_API_URL +:+ "/categories?slug=" +:+ slug in
  (forall n, parseInt slug = Num n ->
     posts_url net perPage slug page = ([], base +:+ "&categories=" +:+ show n)) /\
  (parseInt slug = NaN ->
     (forall status total cid others,
         categories_at net lookup = Responded true status total (Json (cid :: others)) ->
         cid <> 0 ->
         posts_url net perPage slug page =
           ([lookup], base +:+ "&categories=" +:+ show cid)) /\
     (resolution_fails (categories_at net lookup) ->
        posts_url net perPage slug page = ([lookup], base) /\
        forall toISOString now,
          (getPosts toISOString now net perPage slug page).1 = [lookup; base] /\
          forall status total data,
            posts_at net base = Responded true status total (Json data) ->
            (getPosts toISOString now net perPage slug page).2 = Ok data)).
Proof.
  intros Hne Hf Hs base lookup.
  assert (Hurl : forall P : list string * string,
             (match parseInt slug with
              | Num categoryId => ([], base +:+ "&categories=" +:+ show categoryId)
              | Infinity negative =>
                  ([], base +:+ "&categories=" +:+ show_num (Infinity negative))
              | NaN =>
                  let '(log, fetchedCategoryId) := getCategoryId net slug in
                  match fetchedCategoryId with
                  | Some cid =>
                      if negb (cid =? 0)
                      then (log, base +:+ "&categories=" +:+ show cid)
                      else (log, base)
                  | None => (log, base)
                  end
              end) = P -> posts_url net perPage slug page = P).
  { intros P <-. unfold posts_url. rewrite truthy_nonempty by done.
    destruct (decide (slug = "featured-all")); [done|].
    destruct (decide (slug = "sports-all")); [done|]. done. }
  split.
  - intros n Hn. apply Hurl. by rewrite Hn.
  - intros Hnan. split.
    + intros status total cid others Hresp Hcid. apply Hurl. rewrite Hnan.
      unfold getCategoryId. fold lookup. rewrite Hresp. simpl.
      by rewrite (proj2 (Z.eqb_neq _ _) Hcid).
    + intros Hfail.
      assert (Hp : posts_url net perPage slug page = ([lookup], base)).
      { apply Hurl. rewrite Hnan. by rewrite getCategoryId_fails. }
      split; [done|]. intros toISOString now. unfold getPosts. rewrite Hp. simpl.
      split; [done|]. intros status total data ->. done.
Qed.


(** On the sample site: "17600" is used as an id without a lookup,
    "local" is looked up and found to be 3, and "nowhere" is looked up,
    not found, and fetched without a category. *)
Lemma category_resolution_witness :
  posts_url site 10 "17600" 1 =
    ([], "https://eastidahonews.com/wp-json/wp/v2/posts?per_page=10&page=1&_embed&categories=17600") /\
  posts_url site 10 "local" 1 =
    (["https://eastidahonews.com/wp-json/wp/v2/categories?slug=local"],
     "https://eastidahonews.com/wp-json/wp/v2/posts?per_page=10&page=1&_embed&categories=3") /\
  posts_url site 10 "nowhere" 1 =
    (["https://eastidahonews.com/wp-json/wp/v2/categories?slug=nowhere"],
     "https://eastidahonews.com/wp-json/wp/v2/posts?per_page=10&page=1&_embed").
Proof.
  split_and!.
  - pose proof (proj1 (category_resolution site 10 1 "17600"
                   ltac:(discriminate) ltac:(discriminate) ltac:(discriminate))
                  17600 eq_refl) as H.
    vm_compute in H. vm_compute. exact H.
  - pose proof (proj1 (proj2 (category_resolution site 10 1 "local"
                   ltac:(discriminate) ltac:(discriminate) ltac:(discriminate)) eq_refl)
                  200 None 3 [] eq_refl ltac:(lia)) as H.
    vm_compute in H. vm_compute. exact H.
  - assert (Hfail : resolution_fails
              (categories_at site (WORDPRESS_API_URL +:+ "/categories?slug=" +:+ "nowhere"))).
    { right. by exists true, 200, None. }
    pose proof (proj1 (proj2 (proj2 (category_resolution site 10 1 "nowhere"
                   ltac:(discriminate) ltac:(discriminate) ltac:(discriminate)) eq_refl)
                  Hfail)) as H.
    vm_compute in H. vm_compute. exact H.
Defined.

End WordPressFacts.

(** ** Image URL resolution *)

Module StoryImageFacts.
Import JS Net StoryImage Spec Fixtures JSFacts.

Lemma closer_cases t best current :
  (off t current < off t best /\ closer t best current = current) \/
  (off t best <= off t current /\ closer t best current = best).
Proof.
  unfold closer, off. destruct (_ <? _) eqn:E.
  - left. split; [by apply Z.ltb_lt | done].
  - right. split; [by apply Z.ltb_ge | done].
Qed.

(** The [reduce] keeps the first of the closest tiers: everything before
    it is strictly farther, everything after it is at least as far. *)
Lemma closest_first_general t rest :
  forall b pre mid,
    (forall s, s ∈ pre -> off t b < off t s) ->
    (forall s, s ∈ mid -> off t b <= off t s) ->
    exists pre' post',
      pre ++ b :: mid ++ rest = pre' ++ foldl (closer t) b rest :: post' /\
      (forall s, s ∈ pre' -> off t (foldl (closer t) b rest) < off t s) /\
      (forall s, s ∈ post' -> off t (foldl (closer t) b rest) <= off t s).
Proof.
  induction rest as [|c rest IH]; intros b pre mid Hpre Hmid; simpl.
  - exists pre, mid. by rewrite app_nil_r.
  - destruct (closer_cases t b c) as [[Hlt ->] | [Hle ->]].
    + destruct (IH c (pre ++ b :: mid) []) as (pre' & post' & Heq & H1 & H2).
      * intros s Hs. apply elem_of_app in Hs as [Hs|Hs].
        { specialize (Hpre s Hs). lia. }
        apply elem_of_cons in Hs as [->|Hs]; [lia|].
        specialize (Hmid s Hs). lia.
      * intros s Hs. by apply not_elem_of_nil in Hs.
      * exists pre', post'. split; [|done].
        rewrite <- Heq. simpl. by rewrite <- app_assoc.
    + destruct (IH b pre (mid ++ [c])) as (pre' & post' & Heq & H1 & H2).
      * done.
      * intros s Hs. apply elem_of_app in Hs as [Hs|Hs]; [by apply Hmid|].
        apply list_elem_of_singleton in Hs. by subst.
      * exists pre', post'. split; [|done].
        rewrite <- Heq. by rewrite <- app_assoc.
Qed.

Lemma closest_first t first rest :
  exists pre post,
    first :: rest = pre ++ foldl (closer t) first rest :: post /\
    (forall s, s ∈ pre -> off t (foldl (closer t) first rest) < off t s) /\
    (forall s, s ∈ post -> off t (foldl (closer t) first rest) <= off t s).
Proof.
  destruct (closest_first_general t rest first [] []) as (pre & post & H & H1 & H2).
  - intros s Hs. by apply not_elem_of_nil in Hs.
  - intros s Hs. by apply not_elem_of_nil in Hs.
  - by exists pre, post.
Qed.

(** Whenever [getImageUrl] gets as far as its list, the list has no
    repetition; [getAllUrls] never has one. *)
Lemma uniqueUrls_NoDup web image targetWidth urls :
  uniqueUrls web image targetWidth = Ok urls -> NoDup urls.
Proof.
  unfold uniqueUrls. destruct (push_best _ _); [done|].
  intros [= <-]. apply unique_NoDup.
Qed.

Lemma getAllUrls_NoDup image : NoDup (getAllUrls image).
Proof. destruct image; [apply unique_NoDup | apply NoDup_nil_2]. Qed.

(** Without any tier URL, [getAllUrls] is the original URL alone. *)
Lemma getAllUrls_without_tiers image :
  push_tiers (sizes image) fallback_tiers = [] ->
  image_source_url image <> "" ->
  getAllUrls (Some image) = [image_source_url image].
Proof.
  intros Hno Hurl. unfold getAllUrls. rewrite Hno.
  destruct (image_source_url image); done.
Qed.

(** Without a [sizes] object, the list of [getImageUrl] is the original
    URL alone. *)
Lemma uniqueUrls_without_sizes web image targetWidth :
  sizes image = None ->
  uniqueUrls web image targetWidth = Ok [image_source_url image].
Proof.
  intros H. unfold uniqueUrls, push_best. rewrite H.
  destruct targetWidth; by destruct web.
Qed.

(** C5, as the code has it.  Off the web platform, with a non-zero
    target width and at least one tier that has a URL, the list of
    [getImageUrl] starts with the tier whose width is closest to the
    target, the first such tier in the iteration order of [sizes], if
    its width is at most 1.5 times the target; if it is wider the
    heuristic contributes nothing.  On the web platform the thumbnail,
    medium and woocommerce_thumbnail URLs come before it. *)
Theorem closest_tier_first_off_web (image : WordPressImage) (t : Z)
    (l : list (string * Size)) (first : Size) (rest : list Size) :
  sizes image = Some l -> t <> 0 -> availableSizes l = first :: rest ->
  let best := foldl (closer t) first rest in
  let others := push_tiers (sizes image) fallback_tiers ++ [image_source_url image] in
  (exists pre post,
      availableSizes l = pre ++ best :: post /\
      (forall s, s ∈ pre -> off t best < off t s) /\
      (forall s, s ∈ post -> off t best <= off t s)) /\
  (2 * width best <= 3 * t ->
     uniqueUrls false image (Some t) =
       Ok (source_url best :: unique [source_url best] others) /\
     uniqueUrls true image (Some t) =
       Ok (unique [] (push_tiers (sizes image) web_tiers ++ source_url best :: others))) /\
  (3 * t < 2 * width best ->
     uniqueUrls false image (Some t) = Ok (unique [] others) /\
     uniqueUrls true image (Some t) =
       Ok (unique [] (push_tiers (sizes image) web_tiers ++ others))).
Proof.
  intros Hs Ht Ha best others.
  assert (Hbest : forall b, not_oversized t best = b ->
            push_best (Some t) (sizes image) =
            Ok (if b then [source_url best] else [])).
  { intros b <-. unfold push_best. rewrite Hs, Ha. simpl.
    by rewrite (proj2 (Z.eqb_neq _ _) Ht). }
  split_and!.
  - rewrite Ha. apply closest_first.
  - intros Hw. unfold uniqueUrls.
    rewrite (Hbest true) by (by apply Z.leb_le). done.
  - intros Hw. unfold uniqueUrls.
    rewrite (Hbest false) by (by apply Z.leb_gt). done.
Qed.


(** The tiers of width 150, 400 and 1200 with target width 400, off the
    web platform: the medium tier is the first candidate. *)
Lemma closest_tier_first_off_web_witness :
  uniqueUrls false photo (Some 400) =
  Ok [ "https://eastidahonews.com/photo-400x200.jpg";
       "https://eastidahonews.com/photo-150x150.jpg";
       "https://eastidahonews.com/photo-1200x600.jpg";
       "https://eastidahonews.com/photo.jpg" ].
Proof.
  refine (proj1 (proj1 (proj2
    (closest_tier_first_off_web photo 400 photo_sizes photo_thumbnail
       [photo_medium; photo_large] _ _ _)) _)).
  - reflexivity.
  - lia.
  - reflexivity.
  - simpl. lia.
Defined.

(** The same image and target width on the web platform: the thumbnail
    comes first, the medium tier second. *)
Lemma closest_tier_second_on_web :
  uniqueUrls true photo (Some 400) =
  Ok [ "https://eastidahonews.com/photo-150x150.jpg";
       "https://eastidahonews.com/photo-400x200.jpg";
       "https://eastidahonews.com/photo-1200x600.jpg";
       "https://eastidahonews.com/photo.jpg" ] /\
  ~ exists others,
      uniqueUrls true photo (Some 400) =
      Ok ("https://eastidahonews.com/photo-400x200.jpg" :: others).
Proof.
  split; [reflexivity|]. intros [others H]. vm_compute in H. discriminate H.
Qed.

(** C9, at the failing input.  For an image whose [sizes] object is
    empty and a target width of 400, [getImageUrl] throws at its [reduce]
    on either platform instead of falling back to the original URL;
    [getAllUrls] does give the original URL alone. *)
Theorem getImageUrl_throws_without_tiers :
  uniqueUrls false untiered (Some 400) = Err "Reduce of empty array with no initial value" /\
  uniqueUrls true untiered (Some 400) = Err "Reduce of empty array with no initial value" /\
  getImageUrl false (Some untiered) (Some 400) =
    Err "Reduce of empty array with no initial value" /\
  getAllUrls (Some untiered) = ["https://eastidahonews.com/logo.svg"].
Proof. split_and!; reflexivity. Qed.

End StoryImageFacts.

(** * Further properties of the code *)

(** ** Numbers as text *)

Module NumberFacts.
Import JS Net WordPress Terms.

Local Arguments String.append !_ _ / : simpl nomatch.

Lemma is_digit_cases (c : ascii) :
  is_digit c = true ->
  c = "0"%char \/ c = "1"%char \/ c = "2"%char \/ c = "3"%char \/ c = "4"%char \/
  c = "5"%char \/ c = "6"%char \/ c = "7"%char \/ c = "8"%char \/ c = "9"%char.
Proof.
  unfold is_digit, code. intros H. apply andb_true_iff in H as [H1 H2].
  apply Z.leb_le in H1, H2.
  rewrite <- (ascii_nat_embedding c).
  assert (Hn : (nat_of_ascii c = 48 \/ nat_of_ascii c = 49 \/ nat_of_ascii c = 50 \/
                nat_of_ascii c = 51 \/ nat_of_ascii c = 52 \/ nat_of_ascii c = 53 \/
                nat_of_ascii c = 54 \/ nat_of_ascii c = 55 \/ nat_of_ascii c = 56 \/
                nat_of_ascii c = 57)%nat) by lia.
  destruct Hn as [->|[->|[->|[->|[->|[->|[->|[->|[->| ->]]]]]]]]]; tauto.
Qed.

Lemma pretty_N_char_digit (d : N) :
  (d < 10)%N ->
  is_digit (pretty_N_char d) = true /\ digit 10 (pretty_N_char d) = Some (Z.of_N d).
Proof.
  intros H.
  assert (Hd : (d = 0 \/ d = 1 \/ d = 2 \/ d = 3 \/ d = 4 \/ d = 5 \/ d = 6 \/
                d = 7 \/ d = 8 \/ d = 9)%N) by lia.
  destruct Hd as [->|[->|[->|[->|[->|[->|[->|[->|[->| ->]]]]]]]]]; by split.
Qed.

(** The digits of a positive number, and what reading them back gives. *)
Lemma pretty_N_go_digits (x : N) :
  forall s, (0 < x)%N ->
    (all_digits s = true -> all_digits (pretty_N_go x s) = true) /\
    pretty_N_go x s <> "" /\
    digits 10 (pretty_N_go x s) None = digits 10 s (Some (Z.of_N x)).
Proof.
  induction (N.lt_wf_0 x) as [x _ IH]. intros s Hx.
  rewrite pretty_N_go_step by done.
  destruct (pretty_N_char_digit (x `mod` 10)%N) as [Hd Hv].
  { by apply N.mod_lt. }
  destruct (decide (x `div` 10 = 0)%N) as [Hz|Hnz].
  - rewrite Hz, pretty_N_go_0. split_and!.
    + intros Hs. simpl. by rewrite Hd, Hs.
    + done.
    + simpl. rewrite Hv. simpl. f_equal. f_equal.
      rewrite (N.div_mod x 10) at 2 by done. rewrite Hz. lia.
  - destruct (IH (x `div` 10)%N) with (s := String (pretty_N_char (x `mod` 10)) s)
      as (H1 & H2 & H3).
    { by apply N.div_lt. }
    { by apply N.neq_0_lt_0. }
    split_and!.
    + intros Hs. apply H1. simpl. by rewrite Hd, Hs.
    + done.
    + rewrite H3. simpl. rewrite Hv. simpl. f_equal. f_equal.
      rewrite (N.div_mod x 10) at 3 by done. lia.
Qed.

(** Below 2^53, and at 2^53, an integer is a number as it stands. *)
Lemma round53_exact (m : Z) : m <= 9007199254740992 -> round53 m = m.
Proof.
  intros H. unfold round53. destruct (m <? 9007199254740992) eqn:E; [done|].
  apply Z.ltb_ge in E. by replace m with 9007199254740992 by lia.
Qed.

Lemma number_exact (sign m : Z) :
  m <= 9007199254740992 -> number sign m = Num (sign * m).
Proof.
  intros H. unfold number. rewrite round53_exact by done.
  destruct (1024 <=? Z.log2 m) eqn:E; [|done]. apply Z.leb_le in E.
  pose proof (Z.log2_le_mono m 9007199254740992 H) as Hl.
  change (Z.log2 9007199254740992) with 53 in Hl. lia.
Qed.

(** [parseInt] of a run of digits reads all of it in base ten. *)
Lemma parseInt_all_digits (s : string) :
  all_digits s = true -> s <> "" ->
  exists m, digits 10 s None = Some m /\
            parseInt s = number 1 m /\ parseInt ("-" +:+ s) = number (-1) m.
Proof.
  intros Hs Hne. destruct s as [|c1 s1]; [done|]. simpl in Hs.
  apply andb_true_iff in Hs as [Hc1 Hs1].
  assert (Hsome : exists m, digits 10 (String c1 s1) None = Some m).
  { simpl. destruct (is_digit_cases c1 Hc1)
      as [->|[->|[->|[->|[->|[->|[->|[->|[->| ->]]]]]]]]]; simpl;
      match goal with |- exists m, digits 10 s1 (Some ?v) = Some m =>
        generalize v end;
      clear; induction s1 as [|c s IH]; intros v; simpl; eauto;
      destruct (digit 10 c); eauto. }
  destruct Hsome as [m Hm]. exists m. split; [done|].
  destruct (is_digit_cases c1 Hc1)
    as [->|[->|[->|[->|[->|[->|[->|[->|[->| ->]]]]]]]]];
    [| unfold parseInt; simpl; simpl in Hm; rewrite Hm; done ..].
  destruct s1 as [|c2 s2].
  { unfold parseInt. simpl in *. injection Hm as <-. done. }
  simpl in Hs1. apply andb_true_iff in Hs1 as [Hc2 Hs2].
  destruct (is_digit_cases c2 Hc2)
    as [->|[->|[->|[->|[->|[->|[->|[->|[->| ->]]]]]]]]];
    unfold parseInt; simpl; simpl in Hm; rewrite Hm; done.
Qed.

(** X1. Printing an integer that a number holds exactly, one of magnitude
    at most 2^53, and reading it back with [parseInt] gives the integer; so a
    category given as such a numeral is requested under that very number,
    and [getPosts] makes no lookup for it.  (The next integer is lost:
    [parseInt] of the numeral of 2^53 + 1 is 2^53.) *)
Theorem parseInt_show (net : Network) (perPage page z : Z) :
  - 9007199254740992 <= z <= 9007199254740992 ->
  parseInt (show z) = Num z /\
  posts_url net perPage (show z) page =
    ([], posts_base perPage page +:+ "&categories=" +:+ show z).
Proof.
  intros Hz.
  assert (Hp : parseInt (show z) = Num z).
  { unfold show, pretty, pretty_Z. destruct z as [|p|p].
    - reflexivity.
    - unfold pretty, pretty_positive, pretty, pretty_N.
      destruct (decide (N.pos p = 0%N)) as [|_]; [done|].
      destruct (pretty_N_go_digits (N.pos p) "") as (H1 & H2 & H3); [lia|].
      destruct (parseInt_all_digits _ (H1 eq_refl) H2) as (m & Hm & Hpos & _).
      rewrite Hpos. rewrite H3 in Hm. simpl in Hm. injection Hm as <-.
      rewrite number_exact by lia. done.
    - unfold pretty, pretty_positive, pretty, pretty_N.
      destruct (decide (N.pos p = 0%N)) as [|_]; [done|].
      destruct (pretty_N_go_digits (N.pos p) "") as (H1 & H2 & H3); [lia|].
      destruct (parseInt_all_digits _ (H1 eq_refl) H2) as (m & Hm & _ & Hneg).
      rewrite Hneg. rewrite H3 in Hm. simpl in Hm.
      injection Hm as <-. rewrite number_exact by lia. done. }
  split; [done|]. unfold posts_url, posts_base.
  destruct (show z) as [|c s] eqn:E; [discriminate Hp|]. simpl truthy. cbv iota.
  destruct (decide (String c s = "featured-all")) as [Heq|_].
  { rewrite Heq in Hp. discriminate Hp. }
  destruct (decide (String c s = "sports-all")) as [Heq|_].
  { rewrite Heq in Hp. discriminate Hp. }
  by rewrite Hp, E.
Qed.

Lemma parseInt_show_witness :
  parseInt (show 33629) = Num 33629 /\
  posts_url Fixtures.site 10 (show 33629) 1 =
    ([], posts_base 10 1 +:+ "&categories=" +:+ show 33629).
Proof.
  refine (parseInt_show Fixtures.site 10 1 33629 _). lia.
Defined.

(** Past 2^53 the numeral is read as the nearest number, and as an
    infinity from the middle between the largest number and 2^1024 on. *)
Lemma parseInt_rounds :
  parseInt "9007199254740993" = Num 9007199254740992 /\
  parseInt "9007199254740995" = Num 9007199254740996 /\
  parseInt "-9007199254740993" = Num (-9007199254740992) /\
  parseInt "18014398509481987" = Num 18014398509481988 /\
  parseInt (show (2 ^ 1024 - 2 ^ 971)) = Num (2 ^ 1024 - 2 ^ 971) /\
  parseInt (show (2 ^ 1024 - 2 ^ 970 - 1)) = Num (2 ^ 1024 - 2 ^ 971) /\
  parseInt (show (2 ^ 1024 - 2 ^ 970)) = Infinity false /\
  parseInt (show (- 2 ^ 1024)) = Infinity true.
Proof. by vm_compute. Qed.

End NumberFacts.

(** ** Slugs that begin with a digit *)

Module SlugFacts.
Import JS Net WordPress CategoryTabs Terms Fixtures NumberFacts.

Local Arguments String.append !_ _ / : simpl nomatch.

(** Once a digit has been read, [digits] has a value. *)
Lemma digits_some (s : string) :
  forall v, exists m, digits 10 s (Some v) = Some m.
Proof.
  induction s as [|c s IH]; intros v; simpl; [by eexists|].
  destruct (digit 10 c); [apply IH | by eexists].
Qed.

Lemma number_not_NaN (sign m : Z) : isNaN (number sign m) = false.
Proof. unfold number. by destruct (1024 <=? _). Qed.

(** [parseInt] reads a number from every text that begins with one of the
    digits 1-9, whatever follows. *)
Lemma parseInt_leading_digit (d : ascii) (rest : string) :
  is_digit d = true -> d <> "0"%char -> isNaN (parseInt (String d rest)) = false.
Proof.
  intros Hd H0.
  destruct (is_digit_cases d Hd)
    as [->|[->|[->|[->|[->|[->|[->|[->|[->| ->]]]]]]]]]; [done|..];
    unfold parseInt; simpl;
    match goal with |- context [digits 10 rest (Some ?v)] =>
      destruct (digits_some rest v) as [m ->] end;
    apply number_not_NaN.
Qed.

(** C6. The slug "7-questions" of the tab "7 Questions", whose category id
    is 33629, is no integer numeral, yet [getPosts] does not look it up:
    [parseInt] reads the 7 in front of it, and the posts of category 7 are
    requested, with no request to the categories endpoint.  The same
    happens to every slug that begins with one of the digits 1-9. *)
Theorem leading_digit_slug_is_not_looked_up
    (toISOString : Z -> string) (now : Z) (net : Network) (perPage page : Z) :
  cat "33629" "7 Questions" "7-questions" ∈ FEATURED_COLUMNS /\
  integer_text "7-questions" = false /\
  parseInt "7-questions" = Num 7 /\
  needs_lookup "7-questions" = false /\
  posts_url net perPage "7-questions" page =
    ([], posts_base perPage page +:+ "&categories=7") /\
  (getPosts toISOString now net perPage "7-questions" page).1 =
    [posts_base perPage page +:+ "&categories=7"] /\
  (forall d rest, is_digit d = true -> d <> "0"%char ->
     isNaN (parseInt (String d rest)) = false /\
     needs_lookup (String d rest) = false /\
     exists ids,
       posts_url net perPage (String d rest) page =
         ([], posts_base perPage page +:+ "&categories=" +:+ ids)).
Proof.
  split_and!.
  - unfold FEATURED_COLUMNS. set_solver.
  - done.
  - done.
  - done.
  - done.
  - done.
  - intros d rest Hd H0.
    pose proof (parseInt_leading_digit d rest Hd H0) as Hn.
    split_and!; [done | |].
    + unfold needs_lookup. rewrite Hn. apply andb_false_r.
    + unfold posts_url, posts_base. simpl truthy. cbv iota.
      destruct (decide (String d rest = "featured-all")) as [[= -> _]|_].
      { done. }
      destruct (decide (String d rest = "sports-all")) as [[= -> _]|_].
      { done. }
      destruct (parseInt (String d rest)); [done | by eexists ..].
Qed.

(** The slug "5k-results" is requested as category 5. *)
Lemma leading_digit_slug_is_not_looked_up_witness :
  isNaN (parseInt "5k-results") = false /\
  needs_lookup "5k-results" = false /\
  exists ids,
    posts_url site 10 "5k-results" 1 =
      ([], posts_base 10 1 +:+ "&categories=" +:+ ids).
Proof.
  refine (proj2 (proj2 (proj2 (proj2 (proj2 (proj2
    (leading_digit_slug_is_not_looked_up clock_text 0 site 10 1))))))
    "5"%char "k-results" _ _).
  - reflexivity.
  - discriminate.
Defined.

End SlugFacts.

(** ** Requests and failures of [getPosts] *)

Module GetPostsFacts.
Import JS Net WordPress WordPressText Terms Fixtures JSFacts NumberFacts.

Local Arguments String.append !_ _ / : simpl nomatch.

Lemma has_char_app c a b : has_char c (a +:+ b) = has_char c a || has_char c b.
Proof.
  induction a as [|x a IH]; simpl; [done|].
  destruct (decide (x = c)); [done|]. apply IH.
Qed.

(** A text that includes "CORS" has a "C". *)
Lemma includes_CORS_has_C s : includes s "CORS" = true -> has_char "C" s = true.
Proof.
  intros H. apply includes_spec in H as (pre & post & ->).
  rewrite has_char_app. apply orb_true_iff. right. done.
Qed.

Lemma all_digits_no_C s : all_digits s = true -> has_char "C" s = false.
Proof.
  induction s as [|x s IH]; simpl; [done|]. intros H.
  apply andb_true_iff in H as [Hx Hs].
  destruct (decide (x = "C"%char)) as [->|_]; [done|]. by apply IH.
Qed.

Lemma show_no_C z : has_char "C" (show z) = false.
Proof.
  unfold show, pretty, pretty_Z. destruct z as [|p|p]; [done| |].
  - unfold pretty, pretty_positive, pretty, pretty_N.
    destruct (decide (N.pos p = 0%N)); [done|].
    apply all_digits_no_C. by apply (pretty_N_go_digits (N.pos p) "").
  - unfold pretty, pretty_positive, pretty, pretty_N.
    destruct (decide (N.pos p = 0%N)); [done|]. simpl.
    apply all_digits_no_C. by apply (pretty_N_go_digits (N.pos p) "").
Qed.

Lemma http_error_not_CORS status :
  includes ("HTTP error! status: " +:+ show status) "CORS" = false.
Proof.
  destruct (includes _ "CORS") eqn:E; [|done].
  apply includes_CORS_has_C in E. rewrite has_char_app, show_no_C in E. done.
Qed.

Lemma posts_url_lookups net perPage slug page :
  (posts_url net perPage slug page).1 =
  if needs_lookup slug then [lookup_url slug] else [].
Proof.
  unfold posts_url, needs_lookup, lookup_url.
  destruct (truthy slug); [|done]. simpl.
  destruct (decide (slug = "featured-all")) as [->|Hf]; [done|].
  rewrite (bool_decide_eq_false_2 _ Hf).
  destruct (decide (slug = "sports-all")) as [->|Hs]; [done|].
  rewrite (bool_decide_eq_false_2 _ Hs). simpl.
  destruct (parseInt slug); simpl; [|done..].
  unfold getCategoryId.
  destruct (categories_at net _) as [m|ok st tot body]; [done|].
  destruct ok; [|done]. destruct body as [m|[|cid l]]; [done | done |]. simpl.
  by destruct (cid =? 0).
Qed.

Lemma posts_url_shape net perPage slug page :
  (posts_url net perPage slug page).2 = posts_base perPage page \/
  exists ids, (posts_url net perPage slug page).2 =
              posts_base perPage page +:+ "&categories=" +:+ ids.
Proof.
  unfold posts_url, posts_base.
  destruct (truthy slug); [|by left].
  destruct (decide (slug = "featured-all")); [right; by eexists|].
  destruct (decide (slug = "sports-all")); [right; by eexists|].
  destruct (parseInt slug); [|right; by eexists..].
  destruct (getCategoryId net slug) as [log [cid|]]; [|by left].
  destruct (negb (cid =? 0)); [right; by eexists | by left].
Qed.

(** X2. [getPosts] issues one or two requests and the posts request is
    the last: a category lookup comes before it exactly when the category
    is non-empty, is no aggregate token and is not read as a number.  The
    posts URL is the page URL, alone or followed by one [categories]
    parameter; for the empty category it is the page URL alone. *)
Theorem getPosts_requests toISOString now net perPage slug page :
  (getPosts toISOString now net perPage slug page).1 =
    (if needs_lookup slug then [lookup_url slug] else []) ++
    [(posts_url net perPage slug page).2] /\
  ((posts_url net perPage slug page).2 = posts_base perPage page \/
   exists ids, (posts_url net perPage slug page).2 =
               posts_base perPage page +:+ "&categories=" +:+ ids) /\
  (posts_url net perPage "" page).2 = posts_base perPage page.
Proof.
  split_and!.
  - rewrite <- (posts_url_lookups net perPage slug page). unfold getPosts.
    by destruct (posts_url net perPage slug page).
  - apply posts_url_shape.
  - done.
Qed.

(** X3. How [getPosts] settles.  A non-OK response always rejects with
    "HTTP error! status: N"; a network error or an undecodable body rejects
    with its own message, unless that message contains "CORS", in which
    case the promise resolves to mock posts taken from the three base
    posts; an OK response that decodes resolves to its posts. *)
Theorem getPosts_settles toISOString now net perPage slug page :
  let url := (posts_url net perPage slug page).2 in
  let r := (getPosts toISOString now net perPage slug page).2 in
  (forall status total body,
      posts_at net url = Responded false status total body ->
      r = Err ("HTTP error! status: " +:+ show status)) /\
  (forall message,
      posts_at net url = Rejected message \/
      (exists status total, posts_at net url = Responded true status total (BadJson message)) ->
      (includes message "CORS" = false -> r = Err message) /\
      (includes message "CORS" = true ->
         exists posts, r = Ok posts /\ posts `sublist_of` basePosts toISOString now)) /\
  (forall status total data,
      posts_at net url = Responded true status total (Json data) -> r = Ok data).
Proof.
  intros url r.
  assert (Hr : r = match posts_at net url with
                   | Rejected message => getPosts_catch toISOString now slug message
                   | Responded ok status _ body =>
                       if negb ok then
                         getPosts_catch toISOString now slug
                           ("HTTP error! status: " +:+ show status)
                       else match body with
                            | BadJson message => getPosts_catch toISOString now slug message
                            | Json data => Ok data
                            end
                   end).
  { subst r url. unfold getPosts. by destruct (posts_url net perPage slug page). }
  assert (Hcatch : forall message,
    (includes message "CORS" = false ->
       getPosts_catch toISOString now slug message = Err message) /\
    (includes message "CORS" = true ->
       exists posts, getPosts_catch toISOString now slug message = Ok posts /\
                     posts `sublist_of` basePosts toISOString now)).
  { intros message. unfold getPosts_catch. split; intros ->; [done|].
    eexists. split; [done|]. unfold getMockPosts.
    destruct (truthy slug); [apply sublist_filter | done]. }
  split_and!.
  - intros status total body H. rewrite Hr, H. simpl.
    by apply Hcatch, http_error_not_CORS.
  - intros message [H | (status & total & H)]; rewrite Hr, H; apply Hcatch.
  - intros status total data H. by rewrite Hr, H.
Qed.

Lemma getPosts_settles_witness :
  (getPosts clock_text 0
     {| posts_at := fun _ => Responded false 503 None (BadJson "");
        categories_at := fun _ => Rejected "" |} 10 "" 1).2 =
    Err "HTTP error! status: 503" /\
  (getPosts clock_text 0
     {| posts_at := fun _ => Rejected "Network request failed";
        categories_at := fun _ => Rejected "" |} 10 "" 1).2 =
    Err "Network request failed" /\
  exists posts,
    (getPosts clock_text 0
       {| posts_at := fun _ => Rejected "blocked by CORS policy";
          categories_at := fun _ => Rejected "" |} 10 "local" 1).2 = Ok posts /\
    posts `sublist_of` basePosts clock_text 0.
Proof.
  split_and!.
  - pose proof (proj1 (getPosts_settles clock_text 0
      {| posts_at := fun _ => Responded false 503 None (BadJson "");
         categories_at := fun _ => Rejected "" |} 10 "" 1) 503 None (BadJson "") eq_refl) as H.
    vm_compute in H. vm_compute. exact H.
  - exact (proj1 (proj1 (proj2 (getPosts_settles clock_text 0
      {| posts_at := fun _ => Rejected "Network request failed";
         categories_at := fun _ => Rejected "" |} 10 "" 1))
      "Network request failed" (or_introl eq_refl)) eq_refl).
  - exact (proj2 (proj1 (proj2 (getPosts_settles clock_text 0
      {| posts_at := fun _ => Rejected "blocked by CORS policy";
         categories_at := fun _ => Rejected "" |} 10 "local" 1))
      "blocked by CORS policy" (or_introl eq_refl)) eq_refl).
Defined.

End GetPostsFacts.

(** ** The category tabs against the adapter *)

Module CategoryTabsFacts.
Import JS Net WordPress CategoryTabs Terms Fixtures.

(** X4. Every category of the three tabs other than "All News" is
    requested without a category lookup: the two aggregate entries expand
    to exactly the ids of the other entries of their tab, in tab order, and
    every other entry is requested under its own id.  "All News", whose id
    is "all", does cost a lookup of the slug "all". *)
Theorem tab_categories_requests (net : Network) (page : Z) :
  (forall tab c,
      c ∈ getCurrentCategories tab -> cat_id c <> "all" ->
      (loadPosts_url net c page).1 = [] /\
      (cat_id c <> "sports-all" -> cat_id c <> "featured-all" ->
       (loadPosts_url net c page).2 =
         posts_base 10 page +:+ "&categories=" +:+ cat_id c)) /\
  (forall c, handleTabPress sports = Some c ->
      (loadPosts_url net c page).2 =
        posts_base 10 page +:+ "&categories=" +:+
        join "," (map cat_id (tail SPORTS_CATEGORIES))) /\
  (forall c, handleTabPress featured = Some c ->
      (loadPosts_url net c page).2 =
        posts_base 10 page +:+ "&categories=" +:+
        join "," (map cat_id (tail FEATURED_COLUMNS))) /\
  (forall c, handleTabPress regular = Some c ->
      (loadPosts_url net c page).1 = [lookup_url "all"]).
Proof.
  split_and!.
  - intros tab c Hc.
    assert (Hall : Forall (fun c =>
              cat_id c <> "all" ->
              (loadPosts_url net c page).1 = [] /\
              (cat_id c <> "sports-all" -> cat_id c <> "featured-all" ->
               (loadPosts_url net c page).2 =
                 posts_base 10 page +:+ "&categories=" +:+ cat_id c))
              (getCurrentCategories tab)).
    { destruct tab; repeat constructor; simpl; try done. }
    rewrite Forall_forall in Hall. by apply Hall.
  - intros c [= <-]. reflexivity.
  - intros c [= <-]. reflexivity.
  - intros c [= <-]. unfold loadPosts_url. simpl.
    rewrite GetPostsFacts.posts_url_lookups. reflexivity.
Qed.

Lemma tab_categories_requests_witness :
  (loadPosts_url site (cat "17600" "Crime Watch" "crime") 1).1 = [] /\
  (loadPosts_url site (cat "17600" "Crime Watch" "crime") 1).2 =
    posts_base 10 1 +:+ "&categories=17600".
Proof.
  pose proof (proj1 (tab_categories_requests site 1) regular
                (cat "17600" "Crime Watch" "crime")) as H.
  assert (Hin : cat "17600" "Crime Watch" "crime" ∈ getCurrentCategories regular).
  { apply (list_elem_of_lookup_2 _ 2%nat). reflexivity. }
  destruct (H Hin ltac:(discriminate)) as [H1 H2].
  split; [exact H1|]. exact (H2 ltac:(discriminate) ltac:(discriminate)).
Defined.

End CategoryTabsFacts.

(** ** [stripHtml] and [formatDate] *)

Module TextFacts.
Import JS WordPressText Terms JSFacts GetPostsFacts.

Local Arguments String.append !_ _ / : simpl nomatch.

(** *** Tags *)

Lemma has_char_split c s :
  has_char c s = true -> exists a b, s = a +:+ String c b.
Proof.
  induction s as [|x s IH]; simpl; [done|].
  destruct (decide (x = c)) as [->|_].
  - intros _. by exists "", s.
  - intros H. destruct (IH H) as (a & b & ->). by exists (String x a), b.
Qed.

Lemma has_char_here c a b : has_char c (a +:+ String c b) = true.
Proof.
  rewrite has_char_app. apply orb_true_iff. right. simpl.
  by destruct (decide (c = c)).
Qed.

Lemma tagfree_spec s : tagfree s = true <-> ~ has_tag s.
Proof.
  split.
  - intros H (pre & mid & post & ->). revert H.
    induction pre as [|x pre IH]; simpl.
    + destruct (decide ("<"%char = "<"%char)) as [_|]; [|done].
      by rewrite has_char_here.
    + intros H. apply andb_true_iff in H as [_ H]. by apply IH.
  - induction s as [|x s IH]; [done|]. intros H. simpl.
    apply andb_true_iff. split.
    + destruct (decide (x = "<"%char)) as [->|_]; [|done].
      destruct (has_char ">" s) eqn:E; [|done]. exfalso. apply H.
      destruct (has_char_split _ _ E) as (a & b & ->). by exists "", a, b.
    + apply IH. intros (pre & mid & post & ->). apply H.
      by exists (String x pre), mid, post.
Qed.

Lemma no_gt_tagfree s : has_char ">" s = false -> tagfree s = true.
Proof.
  induction s as [|x s IH]; simpl; [done|].
  destruct (decide (x = ">"%char)) as [|Hx]; [done|]. intros H.
  rewrite (IH H), H. by destruct (decide (x = "<"%char)).
Qed.

Lemma tagfree_app_l a b : tagfree (a +:+ b) = true -> tagfree a = true.
Proof.
  induction a as [|x a IH]; simpl; [done|]. intros H.
  apply andb_true_iff in H as [H1 H2]. rewrite (IH H2), andb_true_r.
  destruct (decide (x = "<"%char)); [|done].
  rewrite has_char_app in H1. by destruct (has_char ">" a).
Qed.

Lemma tagfree_app_r a b : tagfree (a +:+ b) = true -> tagfree b = true.
Proof.
  induction a as [|x a IH]; simpl; [done|]. intros H.
  apply andb_true_iff in H as [_ H2]. by apply IH.
Qed.

Lemma removeTags_from_tagfree s : forall inside, tagfree (removeTags_from inside s) = true.
Proof.
  induction s as [|x s IH]; intros inside; simpl; [by destruct inside|].
  destruct inside.
  - destruct (decide (x = ">"%char)); apply IH.
  - destruct (decide (x = "<"%char)) as [->|Hx].
    + destruct (has_char ">" s) eqn:E; [apply IH|]. simpl.
      by rewrite E, (no_gt_tagfree s E).
    + simpl. rewrite IH. by destruct (decide (x = "<"%char)).
Qed.

(** A text without a complete tag goes through unchanged. *)
Lemma removeTags_tagfree s : tagfree s = true -> removeTags s = s.
Proof.
  unfold removeTags. induction s as [|x s IH]; simpl; [done|]. intros H.
  apply andb_true_iff in H as [H1 H2].
  destruct (decide (x = "<"%char)) as [->|_].
  - by destruct (has_char ">" s).
  - by rewrite (IH H2).
Qed.

(** *** The entity *)

Lemma replaceNbsp_step c s' :
  replaceNbsp (String c s') =
  if startsWith (String c s') "&nbsp;" then String " " (replaceNbsp_from 5 s')
  else String c (replaceNbsp s').
Proof. reflexivity. Qed.

Lemma replaceNbsp_cases s :
  s = "" \/
  (exists rest, s = "&nbsp;" +:+ rest /\ replaceNbsp s = String " " (replaceNbsp rest)) \/
  (exists c s', s = String c s' /\ startsWith s "&nbsp;" = false /\
                replaceNbsp s = String c (replaceNbsp s')).
Proof.
  destruct s as [|c s']; [by left|]. right.
  destruct (startsWith (String c s') "&nbsp;") eqn:E.
  - left. apply startsWith_spec in E as [rest E]. exists rest. by rewrite E.
  - right. exists c, s'. split_and!; [done | done |].
    by rewrite replaceNbsp_step, E.
Qed.

Lemma replaceNbsp_ind (P : string -> Prop) :
  P "" ->
  (forall rest, P rest -> P ("&nbsp;" +:+ rest)) ->
  (forall c s', startsWith (String c s') "&nbsp;" = false -> P s' -> P (String c s')) ->
  forall s, P s.
Proof.
  intros H0 H1 H2 s.
  assert (Hlen : forall n s, (String.length s < n)%nat -> P s).
  { clear s. induction n as [|n IH]; intros s Hs; [lia|].
    destruct (replaceNbsp_cases s) as [-> | [(rest & -> & _) | (c & s' & -> & E & _)]].
    - done.
    - apply H1, IH. simpl in Hs. lia.
    - apply H2; [done|]. apply IH. simpl in Hs. lia. }
  apply (Hlen (S (String.length s))). lia.
Qed.

Lemma replaceNbsp_has_char c s :
  has_char c "&nbsp;" = false -> c <> " "%char ->
  has_char c (replaceNbsp s) = has_char c s.
Proof.
  intros Hc Hsp. induction s as [| rest IH | x s' E IH] using replaceNbsp_ind.
  - done.
  - destruct (replaceNbsp_cases ("&nbsp;" +:+ rest))
      as [? | [(r & Hr & ->) | (x & s' & _ & E & _)]]; [done | | done].
    injection Hr as <-. rewrite has_char_app, Hc. simpl.
    destruct (decide (" "%char = c)) as [<-|_]; [done|]. apply IH.
  - destruct (replaceNbsp_cases (String x s'))
      as [? | [(r & Hr & _) | (y & t & [= <- <-] & _ & ->)]]; [done | |].
    + rewrite Hr in E. done.
    + simpl. by rewrite IH.
Qed.

Lemma replaceNbsp_tagfree s : tagfree s = true -> tagfree (replaceNbsp s) = true.
Proof.
  induction s as [| rest IH | x s' E IH] using replaceNbsp_ind.
  - done.
  - destruct (replaceNbsp_cases ("&nbsp;" +:+ rest))
      as [? | [(r & Hr & ->) | (x & s' & _ & E & _)]]; [done | | done].
    injection Hr as <-. intros H. simpl. apply IH.
    by apply (tagfree_app_r "&nbsp;").
  - destruct (replaceNbsp_cases (String x s'))
      as [? | [(r & Hr & _) | (y & t & [= <- <-] & _ & ->)]]; [done | |].
    + rewrite Hr in E. done.
    + simpl. intros H. apply andb_true_iff in H as [H1 H2].
      rewrite (IH H2), andb_true_r.
      destruct (decide (x = "<"%char)); [|done].
      by rewrite replaceNbsp_has_char.
Qed.

(** What the result starts with, the text started with, as long as no
    space is involved. *)
Lemma replaceNbsp_startsWith p :
  has_char " " p = false ->
  forall s, startsWith (replaceNbsp s) p = true -> startsWith s p = true.
Proof.
  induction p as [|k p IH]; [done|]. simpl. intros Hp s.
  destruct (decide (k = " "%char)) as [|Hk]; [done|].
  destruct (replaceNbsp_cases s)
    as [-> | [(rest & -> & ->) | (c & s' & -> & _ & ->)]]; simpl.
  - done.
  - by destruct (decide (k = " "%char)).
  - destruct (decide (k = c)); [|done]. by apply IH.
Qed.

Lemma replaceNbsp_clean s : includes (replaceNbsp s) "&nbsp;" = false.
Proof.
  induction s as [| rest IH | x s' E IH] using replaceNbsp_ind.
  - done.
  - destruct (replaceNbsp_cases ("&nbsp;" +:+ rest))
      as [? | [(r & Hr & ->) | (x & s' & _ & E & _)]]; [done | | done].
    injection Hr as <-. simpl. done.
  - destruct (replaceNbsp_cases (String x s'))
      as [? | [(r & Hr & _) | (y & t & [= <- <-] & _ & ->)]]; [done | |].
    + rewrite Hr in E. done.
    + change (includes (String x (replaceNbsp s')) "&nbsp;")
        with (startsWith (String x (replaceNbsp s')) "&nbsp;" ||
              includes (replaceNbsp s') "&nbsp;").
      rewrite IH, orb_false_r.
      destruct (startsWith (String x (replaceNbsp s')) "&nbsp;") eqn:E'; [|done].
      simpl in E', E. destruct (decide ("&"%char = x)) as [<-|]; [|done].
      apply (replaceNbsp_startsWith "nbsp;") in E'; [|done].
      simpl in E'. congruence.
Qed.

(** A text without the entity goes through unchanged. *)
Lemma replaceNbsp_plain s : includes s "&nbsp;" = false -> replaceNbsp s = s.
Proof.
  induction s as [|x s IH]; [done|]. intros H.
  change (includes (String x s) "&nbsp;")
    with (startsWith (String x s) "&nbsp;" || includes s "&nbsp;") in H.
  apply orb_false_iff in H as [H1 H2].
  by rewrite replaceNbsp_step, H1, (IH H2).
Qed.

(** *** Trimming *)

Lemma trimStart_suffix s : exists ws, s = ws +:+ trimStart s.
Proof.
  induction s as [|x s [ws IH]]; simpl; [by exists ""|].
  destruct (isWhiteSpace x); [|by exists ""].
  exists (String x ws). simpl. by rewrite <- IH.
Qed.

Lemma trimEnd_prefix s : exists ws, s = trimEnd s +:+ ws.
Proof.
  induction s as [|x s [ws IH]]; [by exists ""|].
  simpl trimEnd.
  destruct (trimEnd s) as [|y r] eqn:E.
  - simpl in IH. destruct (isWhiteSpace x); [by exists (String x s)|].
    exists s. done.
  - exists ws. rewrite IH at 1. done.
Qed.

Lemma trim_factor s : exists pre post, s = pre +:+ trim s +:+ post.
Proof.
  destruct (trimStart_suffix s) as [pre H1].
  destruct (trimEnd_prefix (trimStart s)) as [post H2].
  exists pre, post. unfold trim. by rewrite <- H2.
Qed.

Lemma trimEnd_idem s : trimEnd (trimEnd s) = trimEnd s.
Proof.
  induction s as [|x s IH]; simpl; [done|].
  destruct (trimEnd s) as [|y r] eqn:E.
  - destruct (isWhiteSpace x) eqn:Ex; [done|]. simpl. by rewrite Ex.
  - simpl in *. by rewrite IH.
Qed.

Lemma trimEnd_last s pre c :
  trimEnd s = pre +:+ String c "" -> isWhiteSpace c = false.
Proof.
  revert pre. induction s as [|x s IH]; intros pre; simpl.
  - by destruct pre.
  - destruct (trimEnd s) as [|y r] eqn:E.
    + destruct (isWhiteSpace x) eqn:Ex; [by destruct pre|].
      destruct pre as [|p pre]; simpl; [congruence|].
      intros [= _ H]. by destruct pre.
    + destruct pre as [|p pre]; simpl; [done|].
      intros [= _ H]. by apply (IH pre).
Qed.

Lemma trimStart_head s c rest : trimStart s = String c rest -> isWhiteSpace c = false.
Proof.
  induction s as [|x s IH]; simpl; [done|].
  destruct (isWhiteSpace x) eqn:Ex; [done|]. by intros [= <- _].
Qed.

Lemma trimEnd_head c s :
  isWhiteSpace c = false -> exists r, trimEnd (String c s) = String c r.
Proof.
  intros H. simpl. destruct (trimEnd s); rewrite ?H; eauto.
Qed.

Lemma trim_trimmed s : trimmed (trim s).
Proof.
  unfold trim. split.
  - intros c rest H. destruct (trimStart s) as [|x t] eqn:E; [done|].
    pose proof (trimStart_head _ _ _ E) as Hx.
    destruct (trimEnd_head x t Hx) as [r Hr]. rewrite Hr in H. congruence.
  - intros pre c. apply trimEnd_last.
Qed.

Lemma trim_idem s : trim (trim s) = trim s.
Proof.
  unfold trim. destruct (trimStart s) as [|x t] eqn:E; [done|].
  pose proof (trimStart_head _ _ _ E) as Hx.
  destruct (trimEnd_head x t Hx) as [r Hr]. rewrite Hr.
  simpl trimStart. rewrite Hx, <- Hr. apply trimEnd_idem.
Qed.

Lemma includes_factor pre s post kw :
  includes s kw = true -> includes (pre +:+ s +:+ post) kw = true.
Proof.
  rewrite !includes_spec. intros (a & b & ->).
  exists (pre +:+ a), (b +:+ post). by rewrite !sapp_assoc.
Qed.

Lemma stripHtml_tagfree html : tagfree (stripHtml html) = true.
Proof.
  unfold stripHtml.
  destruct (trim_factor (replaceNbsp (removeTags html))) as (pre & post & H).
  pose proof (replaceNbsp_tagfree _ (removeTags_from_tagfree html false)) as Ht.
  fold (removeTags html) in Ht. rewrite H in Ht.
  by apply tagfree_app_r, tagfree_app_l in Ht.
Qed.

Lemma stripHtml_clean html : includes (stripHtml html) "&nbsp;" = false.
Proof.
  unfold stripHtml.
  destruct (trim_factor (replaceNbsp (removeTags html))) as (pre & post & H).
  destruct (includes (trim _) "&nbsp;") eqn:E; [|done].
  apply (includes_factor pre _ post) in E. rewrite <- H in E.
  by rewrite replaceNbsp_clean in E.
Qed.

(** X5. The text [stripHtml] returns has no complete tag left, no
    [&nbsp;] entity left, and neither starts nor ends with white space. *)
Theorem stripHtml_result (html : string) :
  ~ has_tag (stripHtml html) /\
  includes (stripHtml html) "&nbsp;" = false /\
  trimmed (stripHtml html).
Proof.
  split_and!.
  - apply tagfree_spec, stripHtml_tagfree.
  - apply stripHtml_clean.
  - apply trim_trimmed.
Qed.

(** X6. [stripHtml] only trims a text that has no complete tag and no
    [&nbsp;] entity, so a lone ["<"] or [">"] stays; and applying it to its
    own result changes nothing. *)
Theorem stripHtml_plain (html : string) :
  (~ has_tag html -> includes html "&nbsp;" = false -> stripHtml html = trim html) /\
  stripHtml (stripHtml html) = stripHtml html.
Proof.
  assert (Hplain : forall s, tagfree s = true -> includes s "&nbsp;" = false ->
                             stripHtml s = trim s).
  { intros s H1 H2. unfold stripHtml.
    by rewrite (removeTags_tagfree s H1), (replaceNbsp_plain s H2). }
  split.
  - intros H1 H2. apply Hplain; [by apply tagfree_spec | done].
  - rewrite Hplain; [| apply stripHtml_tagfree | apply stripHtml_clean].
    unfold stripHtml. apply trim_idem.
Qed.

Lemma stripHtml_plain_witness : stripHtml "  5 > 3 and 2 < 4 " = trim "  5 > 3 and 2 < 4 ".
Proof.
  refine (proj1 (stripHtml_plain "  5 > 3 and 2 < 4 ") _ _).
  - apply tagfree_spec. reflexivity.
  - reflexivity.
Defined.

(** *** Ages *)

Section Clock.
Variable Date_parse : string -> option Z.

(** X7. [formatDate] by the age of the date in milliseconds: "Just now"
    below one hour (and for a date ahead of the clock); the whole hours,
    from 1 to 23, below one day; otherwise the whole days.  The unit is
    plural exactly above one.  An invalid date gives "NaN day ago", never
    "Recently". *)
Theorem formatDate_by_age (now : Z) (dateString : string) :
  (Date_parse dateString = None ->
     formatDate Date_parse now dateString = "NaN day ago") /\
  (forall t, Date_parse dateString = Some t ->
     (now - t < 3600000 -> formatDate Date_parse now dateString = "Just now") /\
     (3600000 <= now - t < 86400000 ->
        1 <= (now - t) / 3600000 <= 23 /\
        formatDate Date_parse now dateString =
          show ((now - t) / 3600000) +:+ " hour" +:+
          (if decide ((now - t) / 3600000 = 1) then "" else "s") +:+ " ago") /\
     (86400000 <= now - t ->
        1 <= (now - t) / 86400000 /\
        formatDate Date_parse now dateString =
          show ((now - t) / 86400000) +:+ " day" +:+
          (if decide ((now - t) / 86400000 = 1) then "" else "s") +:+ " ago")).
Proof.
  unfold formatDate. split; [by intros ->|]. intros t ->.
  change (1000 * 60 * 60) with 3600000.
  assert (Hplural : forall n, 1 <= n -> plural n = if decide (n = 1) then "" else "s").
  { intros n Hn. unfold plural. destruct (decide (n = 1)) as [->|Hne]; [done|].
    by rewrite (proj2 (Z.ltb_lt 1 n)) by lia. }
  assert (Hdays : (now - t) / 3600000 / 24 = (now - t) / 86400000).
  { rewrite Z.div_div by lia. done. }
  split_and!.
  - intros H. rewrite (proj2 (Z.ltb_lt _ 1)); [done|].
    apply Z.div_lt_upper_bound; lia.
  - intros [H1 H2].
    assert (Hh : 1 <= (now - t) / 3600000 <= 23).
    { split; [apply Z.div_le_lower_bound; lia|].
      apply Z.lt_succ_r. apply Z.div_lt_upper_bound; lia. }
    split; [done|].
    rewrite (proj2 (Z.ltb_ge _ 1)) by lia.
    rewrite (proj2 (Z.ltb_lt _ 24)) by lia.
    by rewrite Hplural by lia.
  - intros H.
    assert (Hd : 1 <= (now - t) / 86400000).
    { apply Z.div_le_lower_bound; lia. }
    assert (Hh : 24 <= (now - t) / 3600000).
    { apply Z.div_le_lower_bound; lia. }
    split; [done|].
    rewrite (proj2 (Z.ltb_ge _ 1)) by lia.
    rewrite (proj2 (Z.ltb_ge _ 24)) by lia.
    cbv zeta. rewrite Hdays. by rewrite Hplural by lia.
Qed.
End Clock.

Lemma formatDate_by_age_witness :
  formatDate Fixtures.clock_read (1714564800000 + 90 * 60 * 1000) "2024-05-01T12:00:00" =
    "1 hour ago" /\
  formatDate Fixtures.clock_read (1714564800000 + 50 * 60 * 60 * 1000) "2024-05-01T12:00:00" =
    "2 days ago" /\
  formatDate Fixtures.clock_read 0 "2024-05-01T12:00:00" = "Just now" /\
  formatDate (fun _ => None) 0 "soon" = "NaN day ago".
Proof.
  split_and!.
  - pose proof (proj2 (proj1 (proj2 (proj2 (formatDate_by_age Fixtures.clock_read
      (1714564800000 + 90 * 60 * 1000) "2024-05-01T12:00:00")
      1714564800000 eq_refl)) ltac:(lia))) as H.
    vm_compute in H. vm_compute. exact H.
  - pose proof (proj2 (proj2 (proj2 (proj2 (formatDate_by_age Fixtures.clock_read
      (1714564800000 + 50 * 60 * 60 * 1000) "2024-05-01T12:00:00")
      1714564800000 eq_refl)) ltac:(lia))) as H.
    vm_compute in H. vm_compute. exact H.
  - exact (proj1 (proj2 (formatDate_by_age Fixtures.clock_read 0 "2024-05-01T12:00:00")
      1714564800000 eq_refl) ltac:(lia)).
  - exact (proj1 (formatDate_by_age (fun _ => None) 0 "soon") eq_refl).
Defined.

End TextFacts.

(** ** More on the result cache *)

Module ArchiveMoreFacts.
Import JS Net WordPress Archive ArchiveLoop ArchiveQueries Spec Terms Fixtures Samples
  JSFacts ArchiveLoopFacts.

Local Arguments String.append !_ _ / : simpl nomatch.

(** *** Cancellation in joined strings *)

Lemma sapp_inv_head a b c : a +:+ b = a +:+ c -> b = c.
Proof. induction a as [|x a IH]; simpl; [done|]. intros [= H]. by apply IH. Qed.

Lemma slength_app a b :
  String.length (a +:+ b) = (String.length a + String.length b)%nat.
Proof. induction a as [|x a IH]; simpl; [done|]. by rewrite IH. Qed.

Lemma sapp_inv_tail a b c : a +:+ c = b +:+ c -> a = b.
Proof.
  revert b. induction a as [|x a IH]; intros [|y b] H; simpl in H.
  - done.
  - apply (f_equal String.length) in H. simpl in H. rewrite slength_app in H. lia.
  - apply (f_equal String.length) in H. simpl in H. rewrite slength_app in H. lia.
  - injection H as -> H. by rewrite (IH b H).
Qed.

(** *** Clearing *)

(** X8. After [clearCache()] the statistics read zero entries and a total
    of zero, and the next [getStories] call, whatever its filter, goes to
    the network. *)
Theorem clearCache_forgets (net : Fetch) this options :
  getCacheStats (clearCache this) = (0%nat, Num 0) /\
  (getStories net (clearCache this) options).2 = [request options].
Proof.
  split; [done|]. unfold getStories. simpl. rewrite lookup_empty.
  destruct (net (request options)) as [m|ok st tot body]; [done|].
  destruct ok; [|done]. by destruct body.
Qed.

(** *** Growth *)

Lemma getStories_other_key (net : Fetch) this options key :
  key <> cacheKey options ->
  cachedStories (getStories net this options).1.1 !! key = cachedStories this !! key.
Proof.
  intros Hne. unfold getStories.
  destruct (cachedStories this !! cacheKey options) as [c|] eqn:E; [done|].
  destruct (net (request options)) as [m|ok st tot body]; [done|].
  destruct ok; [|done]. destruct body as [m|fetched]; [done|]. simpl.
  by rewrite lookup_insert_ne.
Qed.

(** X9. The number of cached queries changes only when a fetch is answered
    or the cache is cleared.  The answer of a fetch that succeeded adds one
    entry when its key has none at that moment, and replaces the entry,
    leaving the number as it is, when a call with the same key that began
    in between has stored one.  The beginning of a call, a hit and the
    answer of a failed fetch leave the number as it is, and [clearCache]
    makes it zero: between two [clearCache] the number never goes down. *)
Theorem cache_grows_when_fetch_settles (l : Loop) :
  (forall e l' effect,
     step l e = Some (l', effect) ->
     match e with
     | CallGetStories _ => (getCacheStats (service l')).1 = (getCacheStats (service l)).1
     | FetchSettles i o =>
         exists key req, pending l !! i = Some (key, req) /\
           match fetched_items o, cachedStories (service l) !! key with
           | Some fetched, None =>
               (getCacheStats (service l')).1 = S (getCacheStats (service l)).1 /\
               cachedStories (service l') !! key = Some fetched
           | Some fetched, Some _ =>
               (getCacheStats (service l')).1 = (getCacheStats (service l)).1 /\
               cachedStories (service l') !! key = Some fetched
           | None, _ => cachedStories (service l') = cachedStories (service l)
           end
     | CallClearCache => (getCacheStats (service l')).1 = 0%nat
     end) /\
  (forall es l' effects,
     run l es = Some (l', effects) -> CallClearCache ∉ es ->
     ((getCacheStats (service l)).1 <= (getCacheStats (service l')).1)%nat).
Proof.
  assert (Hstep : forall l e l' effect,
             step l e = Some (l', effect) ->
             match e with
             | CallGetStories _ =>
                 (getCacheStats (service l')).1 = (getCacheStats (service l)).1
             | FetchSettles i o =>
                 exists key req, pending l !! i = Some (key, req) /\
                   match fetched_items o, cachedStories (service l) !! key with
                   | Some fetched, None =>
                       (getCacheStats (service l')).1 = S (getCacheStats (service l)).1 /\
                       cachedStories (service l') !! key = Some fetched
                   | Some fetched, Some _ =>
                       (getCacheStats (service l')).1 = (getCacheStats (service l)).1 /\
                       cachedStories (service l') !! key = Some fetched
                   | None, _ => cachedStories (service l') = cachedStories (service l)
                   end
             | CallClearCache => (getCacheStats (service l')).1 = 0%nat
             end).
  { clear l. intros l e l' effect Hs. unfold getCacheStats. simpl.
    pose proof (step_state _ _ _ _ Hs) as H.
    destruct e as [options|i o|].
    - destruct H as [-> _]. done.
    - destruct H as (key & req & Hi & _ & Hc & _). exists key, req.
      split; [done|]. rewrite Hc.
      destruct (fetched_items o) as [fetched|]; [|done].
      destruct (cachedStories (service l) !! key) as [old|] eqn:E.
      + split; [by eapply map_size_insert_Some | by rewrite lookup_insert_eq].
      + split; [by apply map_size_insert_None | by rewrite lookup_insert_eq].
    - destruct H as [-> _]. by rewrite map_size_empty. }
  split; [apply Hstep|].
  intros es. revert l. induction es as [|e es IH]; intros l l' effects Hrun Hno.
  - by injection Hrun as <- _.
  - apply run_cons in Hrun as (l1 & effect & effects' & Hs & Hrun & _).
    apply not_elem_of_cons in Hno as [Hne Hno].
    etrans; [|by eapply IH]. specialize (Hstep _ _ _ _ Hs).
    destruct e as [options|i o|]; [| |done].
    + by rewrite Hstep.
    + destruct Hstep as (key & req & _ & H).
      destruct (fetched_items o); [|unfold getCacheStats; simpl; by rewrite H].
      destruct (cachedStories (service l) !! key); destruct H as [-> _]; lia.
Qed.

(** A second call for "local" began before the first was answered.  The
    first answer adds the entry; the second answer finds it and replaces
    it, and the cache still has one entry. *)
Lemma cache_grows_when_fetch_settles_witness :
  (getCacheStats (service one_waiting)).1 = 1%nat /\
  exists l' effect,
    step one_waiting (FetchSettles 0 (Responded true 200 (Some "1") (Json [local_news])))
      = Some (l', effect) /\
    (getCacheStats (service l')).1 = 1%nat /\
    cachedStories (service l') !! cacheKey (in_category "local") = Some [local_news].
Proof.
  split; [by vm_compute|].
  destruct (step one_waiting
              (FetchSettles 0 (Responded true 200 (Some "1") (Json [local_news]))))
    as [[l' effect]|] eqn:Hs; [|vm_compute in Hs; discriminate Hs].
  pose proof (proj1 (cache_grows_when_fetch_settles one_waiting) _ _ _ Hs)
    as (key & req & Hi & H).
  assert (Hkey : key = cacheKey (in_category "local")).
  { vm_compute in Hi. injection Hi as <- _. by vm_compute. }
  subst key.
  assert (Hold : cachedStories (service one_waiting) !! cacheKey (in_category "local")
                 = Some [local_news; local_more]) by (by vm_compute).
  rewrite Hold in H. simpl in H. destruct H as [H1 H2].
  exists l', effect. split_and!.
  - reflexivity.
  - etrans; [exact H1 | by vm_compute].
  - exact H2.
Defined.

(** *** Keys and requests *)

Lemma param_append_if_same key value req :
  param key req = None ->
  param key (append_if key value req) = if truthy value then Some value else None.
Proof.
  unfold append_if. destruct (truthy value); [|done].
  induction req as [|[k v] req IH]; simpl.
  - by destruct (decide (key = key)).
  - destruct (decide (k = key)); [done|]. apply IH.
Qed.

Lemma param_append_if_other key key' value req :
  key' <> key -> param key (append_if key' value req) = param key req.
Proof.
  intros Hne. unfold append_if. destruct (truthy value); [|done].
  induction req as [|[k v] req IH]; simpl.
  - by destruct (decide (key' = key)).
  - destruct (decide (k = key)); [done|]. apply IH.
Qed.

Lemma truthy_default v : (if truthy v then Some v else None) = Some v \/ v = "".
Proof. destruct v; [by right | by left]. Qed.

Lemma param_field (o : ArchiveOptions) :
  let opt v := if truthy v then Some v else None in
  param "categories" (request o) = opt (default "" (category o)) /\
  param "search" (request o) = opt (default "" (search o)) /\
  param "after" (request o) = opt (default "" (dateFrom o)) /\
  param "before" (request o) = opt (default "" (dateTo o)) /\
  param "author" (request o) = opt (default "" (author o)) /\
  param "per_page" (request o) = Some (show (default 10 (perPage o))).
Proof.
  unfold request. split_and!;
    repeat (first [ rewrite param_append_if_same
                  | rewrite param_append_if_other by discriminate ]);
    reflexivity.
Qed.

Lemma opt_inj v w :
  (if truthy v then Some v else None) = (if truthy w then Some w else None) -> v = w.
Proof. destruct v, w; simpl; congruence. Qed.

(** X10. Two filters whose requests are the same always have the same
    cache key: the cache never keeps two entries for one request. *)
Theorem same_request_same_key (o1 o2 : ArchiveOptions) :
  request o1 = request o2 -> cacheKey o1 = cacheKey o2.
Proof.
  intros H.
  destruct (param_field o1) as (A1 & B1 & C1 & D1 & E1 & F1).
  destruct (param_field o2) as (A2 & B2 & C2 & D2 & E2 & F2).
  rewrite H in A1, B1, C1, D1, E1, F1.
  rewrite A2 in A1. rewrite B2 in B1. rewrite C2 in C1. rewrite D2 in D1.
  rewrite E2 in E1. rewrite F2 in F1. injection F1 as F1.
  unfold cacheKey.
  by rewrite (opt_inj _ _ A1), (opt_inj _ _ B1), (opt_inj _ _ C1),
             (opt_inj _ _ D1), (opt_inj _ _ E1), F1.
Qed.

Lemma same_request_same_key_witness :
  cacheKey (in_category "local") =
  cacheKey {| category := Some "local"; search := Some ""; dateFrom := None;
              dateTo := Some ""; author := None; perPage := Some 10 |}.
Proof.
  refine (same_request_same_key (in_category "local")
            {| category := Some "local"; search := Some ""; dateFrom := None;
               dateTo := Some ""; author := None; perPage := Some 10 |} _).
  vm_compute. reflexivity.
Defined.

Lemma cacheKey_one_field (o1 o2 : ArchiveOptions) :
  cacheKey o1 = cacheKey o2 ->
  let c o := default "" (category o) in
  let s o := default "" (search o) in
  let f o := default "" (dateFrom o) in
  let t o := default "" (dateTo o) in
  let a o := default "" (author o) in
  let p o := default 10 (perPage o) in
  (s o1 = s o2 -> f o1 = f o2 -> t o1 = t o2 -> a o1 = a o2 -> p o1 = p o2 -> c o1 = c o2) /\
  (c o1 = c o2 -> f o1 = f o2 -> t o1 = t o2 -> a o1 = a o2 -> p o1 = p o2 -> s o1 = s o2) /\
  (c o1 = c o2 -> s o1 = s o2 -> t o1 = t o2 -> a o1 = a o2 -> p o1 = p o2 -> f o1 = f o2) /\
  (c o1 = c o2 -> s o1 = s o2 -> f o1 = f o2 -> a o1 = a o2 -> p o1 = p o2 -> t o1 = t o2) /\
  (c o1 = c o2 -> s o1 = s o2 -> f o1 = f o2 -> t o1 = t o2 -> p o1 = p o2 -> a o1 = a o2) /\
  (c o1 = c o2 -> s o1 = s o2 -> f o1 = f o2 -> t o1 = t o2 -> a o1 = a o2 -> p o1 = p o2).
Proof.
  unfold cacheKey. intros H. cbv zeta. revert H.
  generalize (default "" (category o1)) (default "" (category o2))
             (default "" (search o1)) (default "" (search o2))
             (default "" (dateFrom o1)) (default "" (dateFrom o2))
             (default "" (dateTo o1)) (default "" (dateTo o2))
             (default "" (author o1)) (default "" (author o2))
             (default 10 (perPage o1)) (default 10 (perPage o2)).
  intros c1 c2 s1 s2 f1 f2 t1 t2 a1 a2 p1 p2 H.
  split_and!.
  - intros -> -> -> -> ->. by apply sapp_inv_tail in H.
  - intros -> -> -> -> ->.
    apply sapp_inv_head, (sapp_inv_head "-") in H. by apply sapp_inv_tail in H.
  - intros -> -> -> -> ->.
    apply sapp_inv_head, (sapp_inv_head "-"), sapp_inv_head, (sapp_inv_head "-") in H.
    by apply sapp_inv_tail in H.
  - intros -> -> -> -> ->.
    apply sapp_inv_head, (sapp_inv_head "-"), sapp_inv_head, (sapp_inv_head "-"),
          sapp_inv_head, (sapp_inv_head "-") in H.
    by apply sapp_inv_tail in H.
  - intros -> -> -> -> ->.
    apply sapp_inv_head, (sapp_inv_head "-"), sapp_inv_head, (sapp_inv_head "-"),
          sapp_inv_head, (sapp_inv_head "-"), sapp_inv_head, (sapp_inv_head "-") in H.
    by apply sapp_inv_tail in H.
  - intros -> -> -> -> ->.
    apply sapp_inv_head, (sapp_inv_head "-"), sapp_inv_head, (sapp_inv_head "-"),
          sapp_inv_head, (sapp_inv_head "-"), sapp_inv_head, (sapp_inv_head "-"),
          sapp_inv_head, (sapp_inv_head "-") in H.
    by apply (inj pretty) in H.
Qed.

(** X11. Two filters that have the same cache key and agree on all fields
    but one agree on that field too, the page size included: entries are
    never shared between filters that differ in one field only. *)
Theorem one_field_never_collides (o1 o2 : ArchiveOptions) :
  cacheKey o1 = cacheKey o2 ->
  let c o := default "" (category o) in
  let s o := default "" (search o) in
  let f o := default "" (dateFrom o) in
  let t o := default "" (dateTo o) in
  let a o := default "" (author o) in
  let p o := default 10 (perPage o) in
  (s o1 = s o2 -> f o1 = f o2 -> t o1 = t o2 -> a o1 = a o2 -> p o1 = p o2 -> c o1 = c o2) /\
  (c o1 = c o2 -> f o1 = f o2 -> t o1 = t o2 -> a o1 = a o2 -> p o1 = p o2 -> s o1 = s o2) /\
  (c o1 = c o2 -> s o1 = s o2 -> t o1 = t o2 -> a o1 = a o2 -> p o1 = p o2 -> f o1 = f o2) /\
  (c o1 = c o2 -> s o1 = s o2 -> f o1 = f o2 -> a o1 = a o2 -> p o1 = p o2 -> t o1 = t o2) /\
  (c o1 = c o2 -> s o1 = s o2 -> f o1 = f o2 -> t o1 = t o2 -> p o1 = p o2 -> a o1 = a o2) /\
  (c o1 = c o2 -> s o1 = s o2 -> f o1 = f o2 -> t o1 = t o2 -> a o1 = a o2 -> p o1 = p o2).
Proof. apply cacheKey_one_field. Qed.

Lemma one_field_never_collides_witness :
  default 10 (perPage (in_category "local")) =
  default 10 (perPage {| category := Some "local"; search := Some ""; dateFrom := None;
                         dateTo := Some ""; author := None; perPage := Some 10 |}).
Proof.
  refine (proj2 (proj2 (proj2 (proj2 (proj2
    (one_field_never_collides (in_category "local")
       {| category := Some "local"; search := Some ""; dateFrom := None;
          dateTo := Some ""; author := None; perPage := Some 10 |} _)))))
    _ _ _ _ _); reflexivity.
Defined.

(** *** The popular stories query *)

Lemma getStories_miss_requests (net : Fetch) this options :
  cachedStories this !! cacheKey options = None ->
  (getStories net this options).2 = [request options].
Proof.
  intros H. unfold getStories. rewrite H.
  destruct (net (request options)) as [m|ok st tot body]; [done|].
  destruct ok; [|done]. by destruct body.
Qed.

(** X12. [getPopularStories] puts the current time into its filter, so
    two calls made at instants whose ISO texts differ have different cache
    keys: the later call is not served from the entry of the earlier one
    and goes to the network, for the same category and number of days. *)
Theorem popular_stories_refetch (toISOString : Z -> string) (now1 now2 : Z)
    (net1 net2 : Fetch) this category days :
  let ago now := now - default 30 days * 24 * 60 * 60 * 1000 in
  toISOString (ago now1) <> toISOString (ago now2) ->
  cachedStories this !! cacheKey (popular_options toISOString now2 category days) = None ->
  cacheKey (popular_options toISOString now1 category days) <>
    cacheKey (popular_options toISOString now2 category days) /\
  (getPopularStories toISOString now2 net2
     (getPopularStories toISOString now1 net1 this category days).1.1 category days).2 =
    [request (popular_options toISOString now2 category days)].
Proof.
  intros ago Hiso Hfresh.
  assert (Hkeys : cacheKey (popular_options toISOString now1 category days) <>
                  cacheKey (popular_options toISOString now2 category days)).
  { intros Hk. apply Hiso.
    by apply (proj1 (proj2 (proj2 (cacheKey_one_field _ _ Hk)))). }
  split; [done|]. unfold getPopularStories, stories_of. simpl.
  apply getStories_miss_requests.
  rewrite getStories_other_key; [done|]. by intros Heq.
Qed.

Lemma popular_stories_refetch_witness :
  (getPopularStories pretty 2000 (answers "1" [sports_news])
     (getPopularStories pretty 1000 (answers "2" [local_news; local_more])
        new_ArchiveService None None).1.1 None None).2 =
    [request (popular_options pretty 2000 None None)].
Proof.
  refine (proj2 (popular_stories_refetch pretty 1000 2000
            (answers "2" [local_news; local_more]) (answers "1" [sports_news])
            new_ArchiveService None None _ _)).
  - vm_compute. discriminate.
  - vm_compute. reflexivity.
Defined.

(** *** The helper queries *)

(** X23. [searchStories] asks for pages of 100, so it has an entry of its
    own: it is not served from the entry the archive screen filled for the
    same category and search with its page size of 10, and goes to the
    network; called again after it succeeded, it is served from its own
    entry with the same stories. *)
Theorem searchStories_own_entry (net1 net2 net3 : Fetch) this query category :
  let screen := {| category := category; search := Some query; dateFrom := None;
                   dateTo := None; author := None; perPage := Some 10 |} in
  let mine := {| category := category; search := Some query; dateFrom := None;
                 dateTo := None; author := None; perPage := Some 100 |} in
  cachedStories this !! cacheKey mine = None ->
  let this1 := (getStories net1 this screen).1.1 in
  let first := searchStories net2 this1 query category in
  first.2 = [request mine] /\
  (~ fetch_failed (net2 (request mine)) ->
   searchStories net3 first.1.1 query category = (first.1.1, first.1.2, [])).
Proof.
  intros screen mine Hfresh this1 first.
  assert (Hkeys : cacheKey mine <> cacheKey screen).
  { intros Hk.
    pose proof (proj2 (proj2 (proj2 (proj2 (proj2
      (cacheKey_one_field mine screen Hk)))))
      eq_refl eq_refl eq_refl eq_refl eq_refl) as Hp.
    simpl in Hp. lia. }
  assert (Hmiss : cachedStories this1 !! cacheKey mine = None).
  { subst this1. by rewrite getStories_other_key. }
  split.
  - subst first. unfold searchStories, stories_of. simpl.
    by apply getStories_miss_requests.
  - intros Hok. subst first. unfold searchStories, stories_of. simpl. fold mine.
    assert (Hsome : is_Some (cachedStories (getStories net2 this1 mine).1.1
                               !! cacheKey mine)).
    { unfold getStories. rewrite Hmiss.
      destruct (net2 (request mine)) as [m|ok st tot body]; [by destruct Hok|].
      destruct ok; simpl; [|destruct Hok; by left].
      destruct body as [m|fetched]; [destruct Hok; by right|]. simpl.
      rewrite lookup_insert_eq. by eexists. }
    destruct (ArchiveFacts.getStories_entry net2 this1 mine Hsome) as [Hentry _].
    by rewrite (ArchiveFacts.getStories_hit net3 _ mine _ Hentry).
Qed.

Lemma searchStories_own_entry_witness :
  (searchStories (answers "1" [sports_news])
     (getStories (answers "2" [local_news; local_more]) new_ArchiveService
        {| category := Some "local"; search := Some "road"; dateFrom := None;
           dateTo := None; author := None; perPage := Some 10 |}).1.1
     "road" (Some "local")).2 =
  [request {| category := Some "local"; search := Some "road"; dateFrom := None;
              dateTo := None; author := None; perPage := Some 100 |}].
Proof.
  refine (proj1 (searchStories_own_entry (answers "2" [local_news; local_more])
            (answers "1" [sports_news]) unreachable new_ArchiveService
            "road" (Some "local") _)).
  vm_compute. reflexivity.
Defined.

End ArchiveMoreFacts.

(** ** More on the change detector *)

Module RealtimeMoreFacts.
Import JS Net WordPress Realtime Spec Terms Fixtures JSFacts RealtimeFacts.

(** *** What a detection step reports *)

Lemma foldl_detect_one articles :
  forall news0 ids0,
  exists news,
    foldl detect_one (news0, ids0) articles = (news0 ++ news, ids0 ++ map post_id news) /\
    news `sublist_of` articles /\
    NoDup (map post_id news) /\
    (forall a, a ∈ news -> post_id a ∉ ids0) /\
    (forall a, a ∈ articles -> post_id a ∈ ids0 ++ map post_id news).
Proof.
  induction articles as [|a l IH]; intros news0 ids0; simpl.
  - exists []. rewrite !app_nil_r. split_and!; [done | done | apply NoDup_nil_2 | |].
    + intros a Ha. by apply not_elem_of_nil in Ha.
    + intros a Ha. by apply not_elem_of_nil in Ha.
  - unfold Set_has, Set_add, Set_has.
    destruct (bool_decide (post_id a ∈ ids0)) eqn:E; simpl.
    + apply bool_decide_eq_true in E.
      destruct (IH news0 ids0) as (news & Hf & Hsub & Hnd & Hnew & Hall).
      exists news. split_and!; [done | by apply sublist_cons | done | done |].
      intros b Hb. apply elem_of_cons in Hb as [->|Hb]; [|by apply Hall].
      apply elem_of_app. by left.
    + apply bool_decide_eq_false in E.
      destruct (IH (news0 ++ [a]) (ids0 ++ [post_id a]))
        as (news & Hf & Hsub & Hnd & Hnew & Hall).
      exists (a :: news). simpl. rewrite Hf, <- !app_assoc. simpl.
      split_and!; [done | by apply sublist_skip | | |].
      * apply NoDup_cons. split; [|done]. intros Hin.
        apply list_elem_of_fmap in Hin as (b & Hb & Hin).
        apply (Hnew b Hin). rewrite <- Hb. apply elem_of_app. right. left.
      * intros b Hb. apply elem_of_cons in Hb as [->|Hb]; [done|].
        intros Hin. apply (Hnew b Hb). apply elem_of_app. by left.
      * intros b Hb. apply elem_of_cons in Hb as [->|Hb].
        { apply elem_of_app. right. left. }
        specialize (Hall b Hb). rewrite <- app_assoc in Hall. exact Hall.
Qed.

Lemma detectNewArticles_news this articles :
  let news := (detectNewArticles this articles).1 in
  news `sublist_of` articles /\
  NoDup (map post_id news) /\
  (forall a, a ∈ news -> post_id a ∉ lastArticleIds this) /\
  (forall a, a ∈ articles ->
     post_id a ∈ lastArticleIds this \/ post_id a ∈ map post_id news) /\
  lastArticleIds (detectNewArticles this articles).2 =
    prune (lastArticleIds this ++ map post_id news).
Proof.
  destruct (foldl_detect_one articles [] (lastArticleIds this))
    as (news & Hf & Hsub & Hnd & Hnew & Hall).
  unfold detectNewArticles, detect_loop. rewrite Hf. simpl.
  split_and!; [done | done | done | | done].
  intros a Ha. by apply elem_of_app, Hall.
Qed.

(** X13. The articles a detection step reports are taken from the batch
    in batch order, none of them was in the seen-set, no identifier is
    reported twice, and every article of the batch is either reported or
    was seen before.  Their identifiers are appended to the seen-set in that
    order before the size check. *)
Theorem detectNewArticles_reports this articles :
  let news := (detectNewArticles this articles).1 in
  news `sublist_of` articles /\
  NoDup (map post_id news) /\
  (forall a, a ∈ news -> post_id a ∉ lastArticleIds this) /\
  (forall a, a ∈ articles ->
     post_id a ∈ lastArticleIds this \/ post_id a ∈ map post_id news) /\
  lastArticleIds (detectNewArticles this articles).2 =
    prune (lastArticleIds this ++ map post_id news).
Proof. apply detectNewArticles_news. Qed.

Lemma detectNewArticles_reports_witness :
  (post_id local_news ∉ lastArticleIds (new_RealtimeService clock_text 0)) /\
  (post_id local_more ∈ lastArticleIds (new_RealtimeService clock_text 0) \/
   post_id local_more ∈
     map post_id (detectNewArticles (new_RealtimeService clock_text 0)
                    [local_news; local_more; local_news]).1).
Proof.
  pose proof (detectNewArticles_reports (new_RealtimeService clock_text 0)
                [local_news; local_more; local_news]) as (_ & _ & Hnew & Hall & _).
  split.
  - apply Hnew. left.
  - apply Hall. right. left.
Defined.

(** *** Detecting the same batch again *)

Lemma foldl_detect_one_seen articles news ids :
  (forall a, a ∈ articles -> post_id a ∈ ids) ->
  foldl detect_one (news, ids) articles = (news, ids).
Proof.
  induction articles as [|a l IH]; intros H; simpl; [done|].
  unfold Set_has. rewrite bool_decide_eq_true_2 by (apply H; left). simpl.
  apply IH. intros b Hb. apply H. by right.
Qed.

Lemma set_lastArticleIds_same this :
  set_lastArticleIds (lastArticleIds this) this = this.
Proof. by destruct this. Qed.

Lemma detectNewArticles_again this articles :
  (length (detect_loop (lastArticleIds this) articles).2 <= 100)%nat ->
  detectNewArticles (detectNewArticles this articles).2 articles =
    ([], (detectNewArticles this articles).2).
Proof.
  intros Hlen.
  destruct (foldl_detect_one articles [] (lastArticleIds this))
    as (news & Hf & _ & _ & _ & Hall).
  unfold detect_loop in Hlen. rewrite Hf in Hlen. simpl in Hlen.
  unfold detectNewArticles at 2 3. unfold detect_loop. rewrite Hf. simpl.
  rewrite (prune_under _ Hlen).
  unfold detectNewArticles, detect_loop. simpl.
  rewrite (foldl_detect_one_seen articles [] _ Hall).
  rewrite (prune_under _ Hlen). done.
Qed.

Section Clock.
Variable Date_parse : string -> option Z.
Variable toISOString : Z -> string.

Local Abbreviation step := (step Date_parse toISOString).
Local Abbreviation run := (run Date_parse toISOString).
Local Abbreviation boot := (boot toISOString).
Local Abbreviation checkForUpdates := (checkForUpdates Date_parse toISOString).
Local Abbreviation pollForUpdates_resume := (pollForUpdates_resume Date_parse toISOString).

(** X14. Whoever detects a batch first takes its updates.  When the
    batch does not push the seen-set past 100: after a manual
    [checkForUpdates] has seen the batch, a poll that fetches the same batch
    delivers nothing to the subscribers; and after a poll has seen it, the
    manual check returns no update. *)
Theorem first_detection_takes_updates (w : World) (now now' : Z)
    (articles : list WordPressPost) :
  (length (detect_loop (lastArticleIds (svc w)) articles).2 <= 100)%nat ->
  delivered
    (pollForUpdates_resume now' (Ok articles)
       (with_svc (checkForUpdates now (Ok articles) (svc w)).2 w)) = delivered w /\
  (checkForUpdates now' (Ok articles)
     (svc (pollForUpdates_resume now (Ok articles) w))).1 = [].
Proof.
  intros Hlen. pose proof (detectNewArticles_again (svc w) articles Hlen) as Hagain.
  split.
  - unfold Realtime.pollForUpdates_resume, Realtime.checkForUpdates. simpl.
    destruct (detectNewArticles (svc w) articles) as [news this1] eqn:E1.
    simpl in *. rewrite Hagain. simpl. by rewrite app_nil_r.
  - unfold Realtime.pollForUpdates_resume, Realtime.checkForUpdates.
    destruct (detectNewArticles (svc w) articles) as [news this1] eqn:E1.
    simpl in *.
    assert (Hsame : detectNewArticles (set_lastUpdateTime (toISOString now) this1) articles
                    = ([], set_lastUpdateTime (toISOString now) this1)).
    { unfold detectNewArticles in *. simpl.
      destruct (detect_loop (lastArticleIds this1) articles) as [n i] eqn:E2.
      injection Hagain as -> Hs. f_equal.
      apply (f_equal lastArticleIds) in Hs. simpl in Hs.
      unfold set_lastArticleIds, set_lastUpdateTime. simpl. by rewrite Hs. }
    by rewrite Hsame.
Qed.

(** *** Rescheduling *)

(** X15. A poll that settles always schedules the next one, exactly once
    and with the interval in force at that moment, whether its fetch
    succeeded or failed and whether polling has been stopped meanwhile. *)
Theorem settled_poll_reschedules (w : World) (now : Z)
    (fetched : Result (list WordPressPost)) :
  timers (pollForUpdates_resume now fetched w) = timers w ++ [pollingInterval (svc w)] /\
  inflight (pollForUpdates_resume now fetched w) = pred (inflight w) /\
  forall seconds,
    timers (pollForUpdates_resume now fetched (setPollingInterval seconds w)) =
      timers w ++ [seconds * 1000].
Proof.
  assert (H : forall w,
    timers (pollForUpdates_resume now fetched w) = timers w ++ [pollingInterval (svc w)] /\
    inflight (pollForUpdates_resume now fetched w) = pred (inflight w)).
  { intros w0. unfold Realtime.pollForUpdates_resume.
    destruct fetched as [m|articles]; [done|].
    unfold detectNewArticles.
    by destruct (detect_loop (lastArticleIds (svc w0)) articles). }
  split_and!; [apply H | apply H |].
  intros seconds. by rewrite (proj1 (H _)).
Qed.

(** *** Stopping, and not stopping *)

Lemma step_while_stopped w e w' :
  isPolling (svc w) = false -> e <> CallStartPolling ->
  step w e = Some w' ->
  isPolling (svc w') = false /\ (inflight w' <= inflight w)%nat.
Proof.
  intros Hstop Hne H.
  destruct e as [| |s|cb|cb|now fetched|now|now fetched|i]; simpl in H.
  - done.
  - by injection H as <-.
  - injection H as <-. by simpl.
  - injection H as <-. by simpl.
  - injection H as <-. by simpl.
  - injection H as <-. simpl. split; [|done].
    destruct fetched as [m|articles]; simpl; [done|].
    unfold detectNewArticles.
    by destruct (detect_loop (lastArticleIds (svc w)) articles).
  - by injection H as <-.
  - destruct (inflight w) as [|n] eqn:E; [done|]. injection H as <-.
    destruct (PollerFacts.resume_counts Date_parse toISOString now fetched w)
      as (H1 & _ & H3).
    rewrite H1, H3, E. simpl. split; [done | lia].
  - destruct (timers w !! i); [|done]. injection H as <-.
    unfold pollForUpdates. simpl. rewrite Hstop. by simpl.
Qed.

(** X16. Once stopped, the poller starts no request until
    [startPolling()] is called again: over any sequence of other events the
    flag stays cleared and the number of polls in flight never grows. *)
Theorem stopped_poller_starts_nothing (es : list Event) (w w' : World) :
  isPolling (svc w) = false -> CallStartPolling ∉ es ->
  run w es = Some w' ->
  isPolling (svc w') = false /\ (inflight w' <= inflight w)%nat.
Proof.
  revert w. induction es as [|e es IH]; intros w Hstop Hno H; simpl in H.
  - injection H as <-. done.
  - destruct (step w e) as [w1|] eqn:E; [|done].
    apply not_elem_of_cons in Hno as [Hne Hno].
    destruct (step_while_stopped w e w1 Hstop (not_eq_sym Hne) E) as [H1 H2].
    destruct (IH w1 H1 Hno H) as [H3 H4]. split; [done | lia].
Qed.

Lemma step_one_chain w e w' :
  stops e = false -> step w e = Some w' -> one_chain w -> one_chain w'.
Proof.
  unfold one_chain, chains. intros Hns H Hinv.
  destruct e as [| |s|cb|cb|now fetched|now|now fetched|i]; simpl in H; try done.
  - injection H as <-. unfold startPolling.
    destruct (isPolling (svc w)) eqn:E; [by rewrite E|].
    unfold pollForUpdates. simpl. lia.
  - injection H as <-. by simpl.
  - injection H as <-. by simpl.
  - injection H as <-. by simpl.
  - injection H as <-. simpl.
    replace (isPolling (checkForUpdates now fetched (svc w)).2)
      with (isPolling (svc w)); [done|].
    destruct fetched as [m|articles]; simpl; [done|].
    unfold detectNewArticles.
    by destruct (detect_loop (lastArticleIds (svc w)) articles).
  - destruct (inflight w) as [|n] eqn:E; [done|]. injection H as <-.
    destruct (PollerFacts.resume_counts Date_parse toISOString now fetched w)
      as (H1 & H2 & H3).
    rewrite H1, H2, H3, E. simpl. lia.
  - destruct (timers w !! i) as [d|] eqn:E; [|done]. injection H as <-.
    assert (Hlen : length (delete i (timers w)) = (length (timers w) - 1)%nat).
    { apply length_delete. by rewrite E. }
    apply lookup_lt_Some in E.
    unfold pollForUpdates. simpl.
    destruct (isPolling (svc w)) eqn:Ep; simpl; rewrite ?Ep, Hlen; lia.
Qed.

(** X17. As long as neither [stopPolling()] nor [reset()] is called, the
    service has exactly one poll chain while polling and none before the
    first [startPolling()]: at most one poll is ever in flight, however
    often [startPolling()] is called. *)
Theorem one_chain_without_stop (now : Z) (es : list Event) (w : World) :
  forallb (fun e => negb (stops e)) es = true ->
  run (boot now) es = Some w ->
  chains w = (if isPolling (svc w) then 1%nat else 0%nat) /\ (inflight w <= 1)%nat.
Proof.
  intros Hes Hrun.
  assert (Hgen : forall es w0 w1,
    forallb (fun e => negb (stops e)) es = true ->
    run w0 es = Some w1 -> one_chain w0 -> one_chain w1).
  { clear. intros es. induction es as [|e es IH]; intros w0 w1 Hes H Hinv; simpl in *.
    - by injection H as <-.
    - apply andb_true_iff in Hes as [He Hes].
      destruct (step w0 e) as [w2|] eqn:E; [|done].
      apply (IH w2 w1 Hes H). apply (step_one_chain w0 e w2); [|done|done].
      by destruct (stops e). }
  assert (Hone : one_chain w) by by apply (Hgen es (boot now) w).
  split; [done|]. unfold one_chain, chains in Hone.
  destruct (isPolling (svc w)); lia.
Qed.
End Clock.

Lemma first_detection_takes_updates_witness :
  delivered
    (pollForUpdates_resume clock_read clock_text 0 (Ok [local_news; local_more])
       (with_svc (checkForUpdates clock_read clock_text 0 (Ok [local_news; local_more])
                    (subscribe 7%nat (new_RealtimeService clock_text 0))).2
          (startPolling (boot clock_text 0)))) = [].
Proof.
  refine (proj1 (first_detection_takes_updates clock_read clock_text
            (with_svc (subscribe 7%nat (new_RealtimeService clock_text 0))
               (startPolling (boot clock_text 0)))
            0 0 [local_news; local_more] _)).
  vm_compute. lia.
Defined.

Lemma stopped_poller_starts_nothing_witness :
  isPolling (svc Samples.stopped_later) = false /\
  (inflight Samples.stopped_later <= inflight Samples.stopped_world)%nat.
Proof.
  refine (stopped_poller_starts_nothing clock_read clock_text Samples.stopped_events
            Samples.stopped_world Samples.stopped_later _ _ _).
  - reflexivity.
  - intros H. inversion H as [|? ? ? H']; subst.
    inversion H' as [|? ? ? H'']; subst. inversion H''.
  - vm_compute. reflexivity.
Defined.

Lemma one_chain_without_stop_witness :
  (inflight (startPolling (startPolling (boot clock_text 0))) <= 1)%nat.
Proof.
  refine (proj2 (one_chain_without_stop clock_read clock_text 0
            [CallStartPolling; CallStartPolling]
            (startPolling (startPolling (boot clock_text 0))) eq_refl eq_refl)).
Defined.

End RealtimeMoreFacts.

(** ** Forgetting identifiers *)

Module ForgettingFacts.
Import JS Net WordPress Realtime Spec Terms Fixtures JSFacts RealtimeFacts RealtimeMoreFacts.

(** X18. The price of the bound: when a detection step pushes the
    seen-set past 100, every identifier older than the last 50 is forgotten,
    and an article carrying such an identifier is reported as new by the
    next detection step that meets it. *)
Theorem pruned_identifier_is_reported_again this articles (a : WordPressPost) :
  NoDup (lastArticleIds this) ->
  let inserted := (detect_loop (lastArticleIds this) articles).2 in
  (100 < length inserted)%nat ->
  post_id a ∈ take (length inserted - 50) inserted ->
  (post_id a ∉ lastArticleIds (detectNewArticles this articles).2) /\
  (detectNewArticles (detectNewArticles this articles).2 [a]).1 = [a].
Proof.
  intros Hnd inserted Hlen Hold.
  assert (Hnd' : NoDup inserted) by by apply detect_loop_NoDup.
  assert (Hgone : post_id a ∉ lastArticleIds (detectNewArticles this articles).2).
  { rewrite detectNewArticles_ids. fold inserted.
    destruct (prune_over inserted Hnd' Hlen) as [-> _]. unfold slice_last.
    rewrite <- (take_drop (length inserted - 50) inserted) in Hnd'.
    apply NoDup_app in Hnd' as (_ & Hdisj & _). by apply Hdisj. }
  split; [done|].
  unfold detectNewArticles at 1. unfold detect_loop. simpl.
  unfold Set_has. rewrite bool_decide_eq_false_2 by done. done.
Qed.

Lemma pruned_identifier_is_reported_again_witness :
  (detectNewArticles
     (detectNewArticles (svc full_world) (numbered 101 1)).2 (numbered 1 1)).1 =
  numbered 1 1.
Proof.
  refine (proj2 (pruned_identifier_is_reported_again (svc full_world) (numbered 101 1)
            {| post_id := 1; post_date := ""; post_title := ""; post_content := "" |}
            _ _ _)).
  - apply (bool_decide_unpack _). vm_compute. exact I.
  - vm_compute. lia.
  - apply (bool_decide_unpack _). vm_compute. exact I.
Defined.

Section Clock.
Variable Date_parse : string -> option Z.
Variable toISOString : Z -> string.

(** X19. [reset()] empties the seen-set and the subscriber list and clears
    the polling flag, but leaves pending timers and polls in flight alone;
    after it, every article of the next batch is reported again, once per
    identifier. *)
Theorem reset_forgets (now : Z) (w : World) (articles : list WordPressPost) :
  let w' := reset toISOString now w in
  lastArticleIds (svc w') = [] /\ subscribers (svc w') = [] /\
  isPolling (svc w') = false /\
  timers w' = timers w /\ inflight w' = inflight w /\
  let updates := (checkForUpdates Date_parse toISOString now (Ok articles) (svc w')).1 in
  NoDup (map (fun u => post_id (article u)) updates) /\
  (forall a, a ∈ articles -> post_id a ∈ map (fun u => post_id (article u)) updates).
Proof.
  simpl. split_and!; try done.
  - unfold checkForUpdates.
    set (this := set_lastUpdateTime _ _).
    destruct (detectNewArticles_news this articles) as (_ & Hnd & _).
    destruct (detectNewArticles this articles) as [news this']. simpl in *.
    by rewrite map_map.
  - intros a Ha. unfold checkForUpdates.
    set (this := set_lastUpdateTime _ _).
    destruct (detectNewArticles_news this articles) as (_ & _ & _ & Hall & _).
    destruct (Hall a Ha) as [Hin | Hin].
    { by apply not_elem_of_nil in Hin. }
    destruct (detectNewArticles this articles) as [news this']. simpl in *.
    by rewrite map_map.
Qed.
End Clock.

Lemma reset_forgets_witness :
  post_id local_news ∈
    map (fun u => post_id (article u))
      (checkForUpdates clock_read clock_text 0 (Ok [local_news; local_news])
         (svc (reset clock_text 0 full_world))).1.
Proof.
  refine (proj2 (proj2 (proj2 (proj2 (proj2 (proj2
    (reset_forgets clock_read clock_text 0 full_world [local_news; local_news]))))))
    local_news _).
  left.
Defined.

End ForgettingFacts.

(** ** More on the image candidates *)

Module StoryImageMoreFacts.
Import JS Net StoryImage ImageLoading Spec Terms Fixtures JSFacts StoryImageFacts.

Lemma truthy_iff (u : string) : Is_true (truthy u) <-> u <> "".
Proof. destruct u; simpl; split; try done. Qed.

Lemma push_tiers_elem sizes names u :
  u ∈ push_tiers sizes names <->
  u <> "" /\ exists name, name ∈ names /\ u = tier_url sizes name.
Proof.
  unfold push_tiers. rewrite list_elem_of_filter, list_elem_of_fmap, truthy_iff.
  split.
  - intros [H (name & H1 & H2)]. split; [done|]. by exists name.
  - intros [H (name & H1 & H2)]. split; [done|]. by exists name.
Qed.

Lemma unique_snoc (l seen : list string) (x : string) :
  x ∉ l -> x ∉ seen -> unique seen (l ++ [x]) = unique seen l ++ [x].
Proof.
  revert seen. induction l as [|y l IH]; intros seen Hl Hs; simpl.
  - by rewrite bool_decide_eq_false_2.
  - apply not_elem_of_cons in Hl as [Hne Hl].
    case_bool_decide; [by apply IH|]. simpl. f_equal. apply IH; [done|].
    by apply not_elem_of_cons.
Qed.

(** X20. The candidates [getAllUrls] returns are exactly the non-empty
    URLs among the six named tiers and the original; there is none without
    an image; no URL occurs twice; and when the original URL is non-empty
    and is the URL of no tier, it is the last candidate. *)
Theorem getAllUrls_candidates (image : WordPressImage) :
  getAllUrls None = [] /\
  NoDup (getAllUrls (Some image)) /\
  (forall u, u ∈ getAllUrls (Some image) <->
     u <> "" /\
     (u = image_source_url image \/
      exists name, name ∈ fallback_tiers /\ u = tier_url (sizes image) name)) /\
  (image_source_url image <> "" ->
   (forall name, name ∈ fallback_tiers -> tier_url (sizes image) name <> image_source_url image) ->
   last (getAllUrls (Some image)) = Some (image_source_url image)).
Proof.
  split_and!.
  - done.
  - apply unique_NoDup.
  - intros u. unfold getAllUrls. rewrite unique_complete, elem_of_app, push_tiers_elem.
    destruct (image_source_url image) as [|c s] eqn:E; simpl.
    + rewrite elem_of_nil. split.
      * intros [[H1 H2] | []]. split; [done | by right].
      * intros [H1 [-> | H2]]; [done | by left].
    + rewrite list_elem_of_singleton. split.
      * intros [[H1 H2] | ->]; [by split; [|right] | by split; [|left]].
      * intros [H1 [-> | H2]]; [by right | by left].
  - intros Hne Hdiff. unfold getAllUrls.
    destruct (image_source_url image) as [|c s] eqn:E; [done|]. simpl.
    rewrite unique_snoc.
    + apply last_snoc.
    + intros Hin. apply push_tiers_elem in Hin as (_ & name & Hn & Hu).
      by apply (Hdiff name Hn).
    + apply not_elem_of_nil.
Qed.

Lemma getAllUrls_candidates_witness :
  last (getAllUrls (Some photo)) = Some "https://eastidahonews.com/photo.jpg".
Proof.
  refine (proj2 (proj2 (proj2 (getAllUrls_candidates photo))) _ _).
  - discriminate.
  - intros name Hn.
    repeat (apply elem_of_cons in Hn as [-> | Hn]; [discriminate|]).
    by apply not_elem_of_nil in Hn.
Defined.

Lemma closer_fold_elem t first rest :
  foldl (closer t) first rest ∈ first :: rest.
Proof.
  destruct (closest_first t first rest) as (pre & post & H & _).
  rewrite H. apply elem_of_app. right. left.
Qed.

Lemma push_best_truthy t sizes l u :
  push_best t sizes = Ok l -> u ∈ l -> u <> "".
Proof.
  unfold push_best. destruct t as [tw|]; [|intros [= <-] H; by apply not_elem_of_nil in H].
  destruct sizes as [ss|]; [|intros [= <-] H; by apply not_elem_of_nil in H].
  destruct (negb (tw =? 0)); [|intros [= <-] H; by apply not_elem_of_nil in H].
  unfold bestSize. destruct (availableSizes ss) as [|first rest] eqn:E; [done|].
  intros [= <-]. destruct (not_oversized tw _); [|intros H; by apply not_elem_of_nil in H].
  intros H. apply list_elem_of_singleton in H as ->.
  pose proof (closer_fold_elem tw first rest) as Hin. rewrite <- E in Hin.
  unfold availableSizes in Hin. apply list_elem_of_filter in Hin as [Hin _].
  by apply truthy_iff.
Qed.

(** X21. Without an image [getImageUrl] returns null.  With an image,
    unless the width heuristic meets an empty list of available tiers, it
    returns a URL, and that URL is non-empty whenever the original URL is:
    an empty candidate is never preferred to the original. *)
Theorem getImageUrl_returns (web : bool) (image : WordPressImage)
    (targetWidth : option Z) :
  getImageUrl web None targetWidth = Ok None /\
  ((forall t l, targetWidth = Some t -> t <> 0 -> sizes image = Some l ->
      availableSizes l <> []) ->
   exists u, getImageUrl web (Some image) targetWidth = Ok (Some u) /\
             (image_source_url image <> "" -> u <> "")).
Proof.
  split; [done|]. intros Havail.
  assert (Hbest : exists best, push_best targetWidth (sizes image) = Ok best).
  { unfold push_best. destruct targetWidth as [t|]; [|by eexists].
    destruct (sizes image) as [l|] eqn:El; [|by eexists].
    destruct (negb (t =? 0)) eqn:Et; [|by eexists].
    unfold bestSize. destruct (availableSizes l) as [|first rest] eqn:Ea.
    - exfalso. apply (Havail t l eq_refl); [|done|done].
      apply negb_true_iff, Z.eqb_neq in Et. done.
    - by eexists. }
  destruct Hbest as [best Hbest].
  unfold getImageUrl, uniqueUrls. rewrite Hbest.
  set (first := if web then push_tiers (sizes image) web_tiers else []).
  set (l := first ++ best ++ push_tiers (sizes image) fallback_tiers ++
            [image_source_url image]).
  assert (Hl : forall u, u ∈ l -> u <> "" \/ u = image_source_url image).
  { intros u Hu. subst l. rewrite !elem_of_app in Hu.
    destruct Hu as [Hu | [Hu | [Hu | Hu]]].
    - left. subst first. destruct web; [|by apply not_elem_of_nil in Hu].
      by apply push_tiers_elem in Hu as [Hu _].
    - left. by apply (push_best_truthy _ _ _ _ Hbest).
    - left. by apply push_tiers_elem in Hu as [Hu _].
    - right. by apply list_elem_of_singleton in Hu. }
  destruct l as [|h tl] eqn:El; simpl.
  - eexists. split; [done|]. done.
  - destruct (Hl h) as [Hh | Hh]; [left | |].
    + destruct h as [|c s]; [done|]. simpl. eexists. split; [done|]. done.
    + destruct (truthy h) eqn:Et.
      * eexists. split; [done|]. intros _. by apply truthy_iff; rewrite Et.
      * eexists. split; [done|]. done.
Qed.

Lemma getImageUrl_returns_witness :
  exists u, getImageUrl true (Some photo) (Some 400) = Ok (Some u) /\
            (image_source_url photo <> "" -> u <> "").
Proof.
  refine (proj2 (getImageUrl_returns true photo (Some 400)) _).
  intros t l _ _ [= <-]. discriminate.
Defined.

(** *** Walking the candidates on load errors *)

Lemma handleError_retryCount n st : retryCount (handleError n st) = retryCount st.
Proof. unfold handleError. by destruct (_ <? _). Qed.

Lemma handleError_next n st :
  urlIndex st < Z.of_nat n - 1 ->
  handleError n st =
  {| urlIndex := urlIndex st + 1; loading := true; error := false;
     retryCount := retryCount st |}.
Proof. intros H. unfold handleError. by rewrite (proj2 (Z.ltb_lt _ _) H). Qed.

Lemma handleError_last n st :
  Z.of_nat n - 1 <= urlIndex st ->
  handleError n st =
  {| urlIndex := urlIndex st; loading := false; error := true;
     retryCount := retryCount st |}.
Proof. intros H. unfold handleError. by rewrite (proj2 (Z.ltb_ge _ _) H). Qed.

Lemma iter_handleError_early (n k : nat) st :
  urlIndex st = 0 -> (k < n)%nat ->
  urlIndex (Nat.iter k (handleError n) st) = Z.of_nat k /\
  (error (Nat.iter k (handleError n) st) = if decide (k = 0%nat) then error st else false).
Proof.
  intros H0. induction k as [|k IH]; intros Hk; simpl; [done|].
  destruct IH as [Hi He]; [lia|].
  rewrite handleError_next by lia. simpl. split; [lia | done].
Qed.

(** X22. One load error after the other, starting from the first
    candidate: the [k]-th error moves on to candidate [k] as long as there
    is one, so every candidate is tried once and in order; the error that
    finds no further candidate raises the error flag and leaves the index on
    the last candidate.  The index never leaves the list.  The retry count
    is not touched, and a retry is offered only while it is below 2. *)
Theorem candidates_are_walked (allUrls : list string) (st : LoadState) (k : nat) :
  urlIndex st = 0 -> error st = false ->
  let n := length allUrls in
  let st' := Nat.iter k (handleError n) st in
  ((k < n)%nat ->
     urlIndex st' = Z.of_nat k /\ error st' = false /\
     currentImageUrl allUrls st' = allUrls !! k) /\
  ((n <= k)%nat -> (0 < k)%nat ->
     error st' = true /\ loading st' = false /\
     urlIndex st' = Z.max 0 (Z.of_nat n - 1)) /\
  retryCount st' = retryCount st /\
  (canRetry st' = true -> retryCount st < 2).
Proof.
  intros H0 He n st'. split_and!.
  - intros Hk. destruct (iter_handleError_early n k st H0 Hk) as [Hi Her].
    fold st' in Hi, Her. split_and!.
    + done.
    + rewrite Her. by destruct (decide (k = 0%nat)).
    + unfold currentImageUrl. rewrite Hi.
      rewrite (proj2 (Z.ltb_ge _ _)) by lia. by rewrite Nat2Z.id.
  - intros Hk Hpos. subst st'.
    assert (Hgen : forall j, (Nat.max n 1 <= j)%nat ->
      error (Nat.iter j (handleError n) st) = true /\
      loading (Nat.iter j (handleError n) st) = false /\
      urlIndex (Nat.iter j (handleError n) st) = Z.max 0 (Z.of_nat n - 1)).
    { intros j Hj. induction j as [|j IH]; [lia|].
      destruct (decide (Nat.max n 1 <= j)%nat) as [Hle|Hgt].
      - destruct (IH Hle) as (I1 & I2 & I3). simpl.
        rewrite handleError_last by lia. simpl. done.
      - destruct (decide (n = 0%nat)) as [Hn0|Hn0].
        + assert (Hj0 : j = 0%nat) by lia. rewrite Hj0. simpl.
          rewrite handleError_last by lia. simpl. split_and!; [done | done | lia].
        + destruct (iter_handleError_early n j st H0) as [Hi _]; [lia|].
          simpl. rewrite handleError_last by lia. simpl.
          split_and!; [done | done | lia]. }
    apply Hgen. lia.
  - subst st'. induction k as [|k IH]; [done|]. simpl.
    by rewrite handleError_retryCount.
  - assert (Hr : retryCount st' = retryCount st).
    { subst st'. induction k as [|k IH]; [done|]. simpl.
      by rewrite handleError_retryCount. }
    unfold canRetry. rewrite Hr. intros H.
    apply andb_true_iff in H as [_ H]. by apply Z.ltb_lt.
Qed.

Lemma candidates_are_walked_witness :
  currentImageUrl (getAllUrls (Some photo))
    (Nat.iter 2 (handleError (length (getAllUrls (Some photo)))) mounted) =
    Some "https://eastidahonews.com/photo-1200x600.jpg" /\
  error (Nat.iter 4 (handleError (length (getAllUrls (Some photo)))) mounted) = true.
Proof.
  split.
  - pose proof (proj1 (candidates_are_walked (getAllUrls (Some photo)) mounted 2
                         eq_refl eq_refl)) as H.
    destruct (H ltac:(vm_compute; lia)) as (_ & _ & H3). exact H3.
  - pose proof (proj1 (proj2 (candidates_are_walked (getAllUrls (Some photo)) mounted 4
                         eq_refl eq_refl))) as H.
    destruct (H ltac:(vm_compute; lia) ltac:(lia)) as (H1 & _). exact H1.
Defined.

End StoryImageMoreFacts.
